(** * pretty_readme: Markdown tables from Beatmania IIDX Dan course dictionaries

    A shallow embedding of [pretty_readme.py] and the properties of its
    row sorter, table renderer, document renderer and entry point.

    Conventions of the embedding.
    - A Python [str] is a [string]: the UTF-8 bytes of the text, where a
      surrogate code point (U+D800 to U+DFFF), which a [str] can hold and
      UTF-8 proper cannot encode, stands as the three bytes ED A0..BF xx
      of its code point.  Comparing these byte sequences lexicographically
      orders them as Python orders the code point sequences, and the byte
      of [|] never occurs inside a multi-byte sequence, so [<] and
      [replace] are modelled on bytes; [encodable] tells the texts that
      the codec of the output file accepts.
    - A Python [int] is a [Z]; [len] is [Z.of_nat] of the length.
    - A Python [dict] is an association list in insertion order; a dict of
      the interpreter never holds a key twice ([dict_wf]).
    - A subscript [d[k]] can raise [KeyError]: such code lives in [res]. *)

From Stdlib Require Import List String Ascii ZArith Lia Bool.
From Stdlib Require Import Sorting.Sorted Sorting.Permutation.
From Stdlib Require Import Numbers.DecimalString.
Import ListNotations.

Local Open Scope list_scope.
Local Open Scope Z_scope.
Local Open Scope string_scope.

(** [++] joins strings throughout; [+++] joins lists. *)
Infix "+++" := List.app (right associativity, at level 60).

(** ** Python values *)

(** The line feed, written [\n] in the source. *)
Definition nl : string := String "010"%char EmptyString.

(** The character [|]. *)
Definition pipe : ascii := "|"%char.

(** The character [\]. *)
Definition backslash : ascii := "\"%char.

(** [len(l)] *)
Definition len {A : Type} (l : list A) : Z := Z.of_nat (List.length l).

(** [str(i)] for an int, as an f-string formats it. *)
Definition str (i : Z) : string := NilZero.string_of_int (Z.to_int i).

(** [range(lo, hi)] *)
Definition range (lo hi : Z) : list Z :=
  map (fun k => lo + Z.of_nat k) (seq 0 (Z.to_nat (hi - lo))).

(** [l * n]: list repetition; a count below one gives the empty list. *)
Definition list_mul {A : Type} (l : list A) (n : Z) : list A :=
  List.concat (repeat l (Z.to_nat n)).

(** [sep.join(l)] *)
Definition join (sep : string) (l : list string) : string := String.concat sep l.

(** [s.replace(old, new)] for a pattern [old] of one character. *)
Fixpoint replace (old : ascii) (new : string) (s : string) : string :=
  match s with
  | EmptyString => EmptyString
  | String c s' =>
      if Ascii.eqb c old then new ++ replace old new s'
      else String c (replace old new s')
  end.

(** [enumerate(l)] *)
Definition enumerate {A : Type} (l : list A) : list (Z * A) :=
  combine (map Z.of_nat (seq 0 (List.length l))) l.

(** [x < y] on tuples [(int, str)]: the first components that differ
    decide, and the second ones are compared only when the first agree. *)
Definition tuple_ltb (x y : Z * string) : bool :=
  if Z.eqb (fst x) (fst y) then String.ltb (snd x) (snd y)
  else Z.ltb (fst x) (fst y).

(** ** Results of code that can raise *)

Inductive res (A : Type) : Type :=
| Ok (a : A)
| KeyError (k : string).
Arguments Ok {A} a.
Arguments KeyError {A} k.

Definition bind {A B : Type} (m : res A) (f : A -> res B) : res B :=
  match m with
  | Ok a => f a
  | KeyError k => KeyError k
  end.

Notation "x <- m ;; k" := (bind m (fun x => k))
  (at level 61, m at next level, right associativity).

(** A list comprehension or loop body that can raise, run left to right. *)
Fixpoint mapM {A B : Type} (f : A -> res B) (l : list A) : res (list B) :=
  match l with
  | [] => Ok []
  | x :: l' => y <- f x ;; ys <- mapM f l' ;; Ok (y :: ys)
  end.

(** ** Dictionaries *)

Definition dict (V : Type) : Type := list (string * V).

Definition dict_keys {V : Type} (d : dict V) : list string := map fst d.

Definition dict_values {V : Type} (d : dict V) : list V := map snd d.

(** [d.get(k)], [None] when the key is absent. *)
Fixpoint dict_lookup {V : Type} (k : string) (d : dict V) : option V :=
  match d with
  | [] => None
  | (k', v) :: d' => if String.eqb k k' then Some v else dict_lookup k d'
  end.

(** [k in d] *)
Definition dict_mem {V : Type} (k : string) (d : dict V) : bool :=
  match dict_lookup k d with Some _ => true | None => false end.

(** [d.get(k, default)] *)
Definition dict_get_default {V : Type} (k : string) (default : V) (d : dict V) : V :=
  match dict_lookup k d with Some v => v | None => default end.

(** [d[k]] *)
Definition dict_get {V : Type} (k : string) (d : dict V) : res V :=
  match dict_lookup k d with Some v => Ok v | None => KeyError k end.

(** [d[k] = v]: a key already there keeps its place, a new one goes last. *)
Fixpoint dict_set {V : Type} (k : string) (v : V) (d : dict V) : dict V :=
  match d with
  | [] => [(k, v)]
  | (k', v') :: d' =>
      if String.eqb k k' then (k', v) :: d' else (k', v') :: dict_set k v d'
  end.

(** No key twice: what every dict of the interpreter satisfies. *)
Definition dict_wf {V : Type} (d : dict V) : Prop := NoDup (dict_keys d).

(** [x in l] for a list of strings. *)
Definition list_mem (x : string) (l : list string) : bool :=
  existsb (String.eqb x) l.

(** ** [sorted]

    [sorted(l, key=f)] is stable and compares keys with [<] only.  The
    insertion sort below is the stable sort on that comparison: an element
    moves right past exactly the elements whose key is smaller. *)
Section Sorted.
Context {A K : Type}.
Variable ltb : K -> K -> bool.
Variable key : A -> K.

Fixpoint insert_by (x : A) (l : list A) : list A :=
  match l with
  | [] => [x]
  | y :: l' =>
      if ltb (key y) (key x) then y :: insert_by x l' else x :: y :: l'
  end.

Definition sorted (l : list A) : list A := fold_right insert_by [] l.

(** [a] may stand before [b] in sorted order: the key of [b] is not
    smaller than the key of [a]. *)
Definition key_le (a b : A) : Prop := ltb (key b) (key a) = false.
End Sorted.

(** [sorted(l)] on strings. *)
Definition sorted_str (l : list string) : list string :=
  sorted String.ltb (fun s => s) l.

(** ** The ordering tables *)

Definition GAME_ORDER : list string :=
  [ "7th style"; "8th style"; "9th style"; "10th style";
    "11 IIDX RED"; "12 HAPPY SKY"; "13 DistorteD"; "14 GOLD";
    "15 DJ TROOPERS"; "16 EMPRESS"; "17 SIRIUS"; "18 Resort Anthem";
    "19 Lincle"; "20 tricoro"; "21 SPADA"; "22 PENDUAL";
    "23 copula"; "24 SINOBUZ"; "25 CANNON BALLERS"; "26 Rootage";
    "26 Rootage (offline)";
    "27 HEROIC VERSE"; "28 BISTROVER"; "29 CastHour"; "30 RESIDENT";
    "31 EPOLIS"; "32 Pinky Crush" ].

Definition DAN_ORDER : list string :=
  [ "1st Dan"; "2nd Dan"; "3rd Dan"; "4th Dan"; "5th Dan";
    "6th Dan"; "7th Dan"; "8th Dan"; "9th Dan"; "10th Dan";
    "Chuuden"; "Kaiden" ].

(** ** Row sorter *)

(** [{name: i for i, name in enumerate(table)}] *)
Definition index_of (table : list string) : dict Z :=
  fold_left (fun d p => dict_set (snd p) (fst p) d) (enumerate table) [].

(** The sort key of [order_games]: [(index.get(k, 10_000), k)]. *)
Definition game_key (index : dict Z) (k : string) : Z * string :=
  (dict_get_default k 10000 index, k).

Definition order_games (keys : list string) : list string :=
  let index := index_of GAME_ORDER in
  sorted tuple_ltb (game_key index) keys.

(** ** Rank table renderer *)

(** A GameSection: game-edition name to its stage titles. *)
Definition game_section : Type := dict (list string).

Definition max_stage_len (section : game_section) : Z :=
  fold_left (fun m stages => Z.max m (len stages)) (dict_values section) 0.

(** The list [header] of [render_table_for_dan]. *)
Definition header (cols : Z) : list string :=
  ["Game"] +++ map (fun i => "Stage " ++ str i) (range 1 (cols + 1)).

(** The list [sep] of [render_table_for_dan]. *)
Definition sep (cols : Z) : list string := list_mul ["---"] (cols + 1).

(** The list [row] as first assigned: name, stages, padding. *)
Definition row (cols : Z) (game : string) (stages : list string) : list string :=
  [game] +++ stages +++ list_mul [""] (cols - len stages).

(** [cell.replace("|", r"\|")] *)
Definition escape_cell (cell : string) : string :=
  replace pipe (String backslash (String pipe EmptyString)) cell.

(** ["| " + " | ".join(cells) + " |"] *)
Definition table_line (cells : list string) : string :=
  "| " ++ join " | " cells ++ " |".

(** One pass of the loop over the games: the line appended for [game]. *)
Definition game_line (section : game_section) (cols : Z) (game : string) : res string :=
  stages <- dict_get game section ;;
  Ok (table_line (map escape_cell (row cols game stages))).

(** The list [lines] of [render_table_for_dan] when it is joined. *)
Definition table_lines (dan_name : string) (section : game_section) : res (list string) :=
  let cols := max_stage_len section in
  rows <- mapM (game_line section cols) (order_games (dict_keys section)) ;;
  Ok ([ "### " ++ dan_name ++ nl;
        table_line (header cols);
        table_line (sep cols) ]
      +++ rows +++ [""]).

Definition render_table_for_dan (dan_name : string) (section : game_section) : res string :=
  match section with
  | [] => Ok ""
  | _ :: _ =>
      lines <- table_lines dan_name section ;;
      Ok (join nl lines)
  end.

(** ** Document renderer *)

(** A RankSection: rank name to its GameSection. *)
Definition rank_section : Type := dict game_section.

(** [known]: the ranks of the table that the data has, in table order. *)
Definition known (data : rank_section) : list string :=
  filter (fun d => dict_mem d data) DAN_ORDER.

(** [extras]: the other ranks of the data, sorted. *)
Definition extras (data : rank_section) : list string :=
  sorted_str (filter (fun d => negb (list_mem d DAN_ORDER)) (dict_keys data)).

(** The blocks appended to [out] for one dataset. *)
Definition render_dataset (title : string) (data : rank_section) : res (list string) :=
  tables <- mapM (fun dan_name =>
                    section <- dict_get dan_name data ;;
                    render_table_for_dan dan_name section)
                 (known data +++ extras data) ;;
  Ok (("## " ++ title ++ nl) :: tables).

(** The list [out] of [render_markdown] when it is joined. *)
Definition markdown_blocks (datasets : list (string * rank_section)) : res (list string) :=
  blocks <- mapM (fun p => render_dataset (fst p) (snd p)) datasets ;;
  Ok (("# Beatmania IIDX Dan Courses" ++ nl) :: List.concat blocks).

Definition render_markdown (datasets : list (string * rank_section)) : res string :=
  out <- markdown_blocks datasets ;;
  Ok (join nl out).

(** ** Entry point *)

(** The module globals that [main] looks at: the datasets bound by name. *)
Definition globals : Type := dict rank_section.

(** What [main] can see and change outside the module: the output file
    (absent or with its content), whether it can be opened for writing,
    and what has been printed. *)
Record world : Type := mkWorld {
  readme : option string;
  writable : bool;
  stdout : list string
}.

Inductive outcome : Type :=
| Returned
| SystemExit (msg : string)
| RaisedKeyError (k : string)
| RaisedOSError
| RaisedUnicodeEncodeError.

(** The byte that starts the three-byte form of U+D000 to U+DFFF. *)
Definition lead_ED (c : ascii) : bool := N.eqb (N_of_ascii c) 237.

(** The second bytes A0..BF, which after ED make a surrogate. *)
Definition surrogate_second (c : ascii) : bool :=
  N.leb 160 (N_of_ascii c) && N.leb (N_of_ascii c) 191.

(** [text.encode("utf-8")] succeeds: the text holds no surrogate. *)
Fixpoint encodable (s : string) : bool :=
  match s with
  | EmptyString => true
  | String c s' =>
      match s' with
      | String c' _ => negb (lead_ED c && surrogate_second c') && encodable s'
      | EmptyString => true
      end
  end.

(** [f.write(text)] on the file opened with [encoding="utf-8"] that holds
    [content] so far: the text is encoded, which raises
    [UnicodeEncodeError] on a surrogate, and then joins the content. *)
Definition file_write (content text : string) : option string :=
  if encodable text then Some (content ++ text) else None.

Definition required : list string := ["dan_courses_sp"; "dan_courses_dp"].

(** The list [missing] of [main]. *)
Definition missing (globs : globals) : list string :=
  filter (fun name => negb (dict_mem name globs)) required.

Definition missing_message (names : list string) : string :=
  "Missing dictionaries: "
  ++ join ", " names
  ++ nl ++ "Paste your `dan_courses_sp` and `dan_courses_dp` above, "
  ++ "or import them before running this script.".

Definition preamble : string :=
  "python 2d dictionary of all AC dan courses from 7th dan - kaiden feel free to add PR with new stuff or kyu courses I am just lazy " ++ nl.

Definition out_path : string := "README.md".

(** [main]: the outcome and the world it leaves.  The document is
    rendered first.  [open(out_path, "w")] either raises and changes
    nothing, or leaves the file empty; the two writes follow, and when one
    raises the [with] block closes the file on what was written before
    it, and nothing is printed.  A write raises here when its text cannot
    be encoded; a failure of the device during a write or of [print] is
    outside the model, and no property below says that a run returns. *)
Definition main (globs : globals) (w : world) : outcome * world :=
  let names := missing globs in
  match names with
  | _ :: _ => (SystemExit (missing_message names), w)
  | [] =>
      match (sp <- dict_get "dan_courses_sp" globs ;;
             dp <- dict_get "dan_courses_dp" globs ;;
             render_markdown [("Singles Play", sp); ("Doubles Play", dp)]) with
      | KeyError k => (RaisedKeyError k, w)
      | Ok md =>
          if writable w then
            match file_write "" preamble with
            | None =>
                (RaisedUnicodeEncodeError, mkWorld (Some "") true (stdout w))
            | Some c1 =>
                match file_write c1 md with
                | None =>
                    (RaisedUnicodeEncodeError,
                     mkWorld (Some c1) true (stdout w))
                | Some c2 =>
                    (Returned,
                     mkWorld (Some c2) true
                             (stdout w +++ ["Wrote " ++ out_path]))
                end
            end
          else (RaisedOSError, w)
      end
  end.

(** ** Running the file as a script *)

(** The names a module exports, here those of [courses]. *)
Definition namespace : Type := dict rank_section.

Inductive load_error : Type :=
| ModuleNotFoundError
| ImportError (name : string).

(** [from m import n1, n2, ...]: each name is looked up in the module and
    bound in the globals, in order; the first absent one raises. *)
Fixpoint import_names (m : namespace) (names : list string) (globs : globals)
  : load_error + globals :=
  match names with
  | [] => inr globs
  | n :: names' =>
      match dict_lookup n m with
      | None => inl (ImportError n)
      | Some v => import_names m names' (dict_set n v globs)
      end
  end.

(** The top level of the file up to the call of [main]: the import of line
    18 binds the two datasets; the assignments and [def]s after it bind
    other names and leave these two alone.  [None] stands for no module
    named [courses], [Some m] for a module whose body has run and left
    the names [m]. *)
Definition load_module (courses : option namespace) : load_error + globals :=
  match courses with
  | None => inl ModuleNotFoundError
  | Some m => import_names m required []
  end.

Inductive script_outcome : Type :=
| LoadFailed (e : load_error)
| Ran (o : outcome).

(** [python pretty_readme.py] *)
Definition run_script (courses : option namespace) (w : world) : script_outcome * world :=
  match load_module courses with
  | inl e => (LoadFailed e, w)
  | inr globs => let r := main globs w in (Ran (fst r), snd r)
  end.

(** ** Notions the properties are stated with *)

(** A pipe is bare when the character before it is not a backslash.
    [bare_pipes_from e s] counts the bare pipes of [s], where [e] tells
    whether the character before [s] is a backslash. *)
Fixpoint bare_pipes_from (e : bool) (s : string) : nat :=
  match s with
  | EmptyString => 0
  | String c s' =>
      ((if Ascii.eqb c pipe && negb e then 1 else 0)
       + bare_pipes_from (Ascii.eqb c backslash) s')%nat
  end.

Definition bare_pipes (s : string) : nat := bare_pipes_from false s.

(** The pieces of a text between its bare pipes. *)
Fixpoint split_bare_from (e : bool) (s : string) : list string :=
  match s with
  | EmptyString => [EmptyString]
  | String c s' =>
      let r := split_bare_from (Ascii.eqb c backslash) s' in
      if Ascii.eqb c pipe && negb e then EmptyString :: r
      else match r with
           | [] => [String c EmptyString]
           | x :: xs => String c x :: xs
           end
  end.

Definition split_bare (s : string) : list string := split_bare_from false s.

(** Reading an escaped text back: a backslash before a pipe is dropped. *)
Fixpoint unescape (s : string) : string :=
  match s with
  | EmptyString => EmptyString
  | String c s' =>
      match s' with
      | String c' s'' =>
          if Ascii.eqb c backslash && Ascii.eqb c' pipe
          then String c' (unescape s'')
          else String c (unescape s')
      | EmptyString => String c EmptyString
      end
  end.

(** The dict comprehension of [order_games] part way through: the names
    of [table] are numbered from [n] and stored into [d]. *)
Definition enumerate_from {A : Type} (n : nat) (l : list A) : list (Z * A) :=
  combine (map Z.of_nat (seq n (List.length l))) l.

Definition index_from (n : nat) (table : list string) (d : dict Z) : dict Z :=
  fold_left (fun d p => dict_set (snd p) (fst p) d) (enumerate_from n table) d.

(** [a] stands somewhere before [b] in [l]. *)
Definition occurs_before {A : Type} (l : list A) (a b : A) : Prop :=
  exists l1 l2 l3, l = l1 +++ a :: l2 +++ b :: l3.

(** The text between two delimiters of a table line that shows [cell]. *)
Definition padded (cell : string) : string := " " ++ cell ++ " ".

(** The text of a table line after its first delimiter: each cell between
    spaces and followed by a delimiter. *)
Definition cells_text (cells : list string) : string :=
  fold_right (fun c acc => " " ++ c ++ " |" ++ acc) "" cells.

(** No pipe at all in a text. *)
Fixpoint no_pipe (s : string) : bool :=
  match s with
  | EmptyString => true
  | String c s' => negb (Ascii.eqb c pipe) && no_pipe s'
  end.

(** The section [{"7th style": ["SONIC BOOM"], "8th style": ["SOUND CROSS", "V"]}]. *)
Definition first_dan_example : game_section :=
  [ ("7th style", ["SONIC BOOM"]); ("8th style", ["SOUND CROSS"; "V"]) ].

(** A section whose texts hold pipes and backslashes. *)
Definition pipe_example : game_section :=
  [ ("9th|style", ["a|b"; "c\|d"; "e\"]); ("8th style", ["||"]) ].

(** The title block that opens the document. *)
Definition title_line : string := "# Beatmania IIDX Dan Courses" ++ nl.

(** Globals with both datasets, with only the Doubles one, and a world
    where the output file does not exist yet. *)
Definition both_globals : globals :=
  [ ("dan_courses_sp", [("1st Dan", first_dan_example)]);
    ("dan_courses_dp", [("Kaiden", pipe_example)]) ].

Definition doubles_only_globals : globals :=
  [ ("dan_courses_dp", [("Kaiden", pipe_example)]) ].

Definition fresh_world : world := mkWorld None true [].

(** A dataset with ranks of the table, ranks outside it and an empty one. *)
Definition mixed_ranks : rank_section :=
  [ ("Kaiden", first_dan_example); ("zeta", pipe_example);
    ("2nd Dan", []); ("alpha", first_dan_example) ].

(** The number of pipes of a text. *)
Fixpoint count_pipes (s : string) : nat :=
  match s with
  | EmptyString => 0
  | String c s' => ((if Ascii.eqb c pipe then 1 else 0) + count_pipes s')%nat
  end.

(** The section of the example with its entries the other way round. *)
Definition first_dan_swapped : game_section :=
  [ ("8th style", ["SOUND CROSS"; "V"]); ("7th style", ["SONIC BOOM"]) ].

(** The ranks of [mixed_ranks] inserted in another order. *)
Definition mixed_ranks_reordered : rank_section :=
  [ ("alpha", first_dan_example); ("2nd Dan", []);
    ("zeta", pipe_example); ("Kaiden", first_dan_example) ].

(** Two datasets are the same up to the order of their ranks. *)
Definition same_ranks (p p' : string * rank_section) : Prop :=
  fst p = fst p' /\ dict_wf (snd p) /\ Permutation (snd p) (snd p').

(** The number of line feeds of a text. *)
Fixpoint count_nl (s : string) : nat :=
  match s with
  | EmptyString => 0
  | String c s' => ((if Ascii.eqb c "010"%char then 1 else 0) + count_nl s')%nat
  end.

(** The line feeds of all the texts of a list. *)
Definition count_nl_all (l : list string) : nat := list_sum (map count_nl l).

(** A section whose second stage title holds a line feed. *)
Definition line_feed_example : game_section :=
  [ ("7th style", ["SONIC BOOM"; "one" ++ nl ++ "two"]) ].

(** Lists of distinct string literals have no repetition. *)
Ltac nodup_strings :=
  apply (NoDup_count_occ' string_dec); intros x Hx; simpl in Hx;
  repeat (destruct Hx as [<-|Hx]; [reflexivity|]); contradiction.

(** The text of the one code point U+D800, a lone surrogate. *)
Definition lone_surrogate : string :=
  String "237"%char (String "160"%char (String "128"%char EmptyString)).

(** Globals whose Singles dataset holds a stage title with a lone
    surrogate. *)
Definition surrogate_globals : globals :=
  [ ("dan_courses_sp", [("1st Dan", [("7th style", [lone_surrogate])])]);
    ("dan_courses_dp", [("Kaiden", first_dan_example)]) ].

(** * Properties *)

(** ** The order on strings *)

Lemma ascii_compare_refl (c : ascii) : Ascii.compare c c = Eq.
Proof. unfold Ascii.compare. apply N.compare_refl. Qed.

Lemma ascii_compare_lt_trans (a b c : ascii) :
  Ascii.compare a b = Lt -> Ascii.compare b c = Lt -> Ascii.compare a c = Lt.
Proof.
  unfold Ascii.compare. rewrite !N.compare_lt_iff. apply N.lt_trans.
Qed.

Lemma string_compare_refl (s : string) : String.compare s s = Eq.
Proof.
  induction s as [|c s IH]; simpl; [reflexivity|].
  now rewrite ascii_compare_refl.
Qed.

Lemma string_compare_lt_trans (a b c : string) :
  String.compare a b = Lt -> String.compare b c = Lt -> String.compare a c = Lt.
Proof.
  revert b c. induction a as [|x a IH]; intros [|y b] [|z c]; simpl;
    try discriminate; try reflexivity.
  destruct (Ascii.compare x y) eqn:Hxy; try discriminate;
    destruct (Ascii.compare y z) eqn:Hyz; try discriminate; intros H1 H2.
  - apply Ascii.compare_eq_iff in Hxy, Hyz. subst.
    rewrite ascii_compare_refl. eauto.
  - apply Ascii.compare_eq_iff in Hxy. subst. now rewrite Hyz.
  - apply Ascii.compare_eq_iff in Hyz. subst. now rewrite Hxy.
  - now rewrite (ascii_compare_lt_trans _ _ _ Hxy Hyz).
Qed.

Lemma string_ltb_asym (s t : string) :
  String.ltb s t = true -> String.ltb t s = false.
Proof.
  unfold String.ltb. rewrite (String.compare_antisym t s).
  destruct (String.compare s t); simpl; congruence.
Qed.

Lemma string_ltb_false_leb (s t : string) :
  String.ltb t s = false <-> String.leb s t = true.
Proof.
  unfold String.ltb, String.leb. rewrite (String.compare_antisym t s).
  destruct (String.compare s t); simpl; split; congruence.
Qed.

Lemma string_leb_trans (a b c : string) :
  String.leb a b = true -> String.leb b c = true -> String.leb a c = true.
Proof.
  unfold String.leb.
  destruct (String.compare a b) eqn:Hab; try discriminate;
    destruct (String.compare b c) eqn:Hbc; try discriminate; intros _ _.
  - apply String.compare_eq_iff in Hab. subst. now rewrite Hbc.
  - apply String.compare_eq_iff in Hab. subst. now rewrite Hbc.
  - apply String.compare_eq_iff in Hbc. subst. now rewrite Hab.
  - now rewrite (string_compare_lt_trans _ _ _ Hab Hbc).
Qed.

Lemma string_ltb_negtrans (a b c : string) :
  String.ltb b a = false -> String.ltb c b = false -> String.ltb c a = false.
Proof. rewrite !string_ltb_false_leb. apply string_leb_trans. Qed.

(** ** The order on sort keys *)

Lemma tuple_ltb_asym (x y : Z * string) :
  tuple_ltb x y = true -> tuple_ltb y x = false.
Proof.
  destruct x as [a s], y as [b t]. unfold tuple_ltb. simpl.
  rewrite (Z.eqb_sym b a).
  destruct (Z.eqb_spec a b) as [->|Hne].
  - apply string_ltb_asym.
  - rewrite Z.ltb_lt, Z.ltb_ge. lia.
Qed.

Lemma tuple_ltb_negtrans (x y z : Z * string) :
  tuple_ltb y x = false -> tuple_ltb z y = false -> tuple_ltb z x = false.
Proof.
  destruct x as [a s], y as [b t], z as [c u]. unfold tuple_ltb. simpl.
  destruct (Z.eqb_spec b a) as [Hba|Hba], (Z.eqb_spec c b) as [Hcb|Hcb],
    (Z.eqb_spec c a) as [Hca|Hca];
    rewrite ?Z.ltb_ge; try lia; try (intros; discriminate); auto.
  apply string_ltb_negtrans.
Qed.

(** ** [sorted] permutes its input and leaves it in key order *)

Section SortedFacts.
Context {A K : Type}.
Variable ltb : K -> K -> bool.
Variable key : A -> K.
Hypothesis ltb_asym : forall x y, ltb x y = true -> ltb y x = false.
Hypothesis ltb_negtrans :
  forall x y z, ltb y x = false -> ltb z y = false -> ltb z x = false.

Lemma insert_by_perm (x : A) (l : list A) :
  Permutation (x :: l) (insert_by ltb key x l).
Proof.
  induction l as [|y l IH]; simpl; [reflexivity|].
  destruct (ltb (key y) (key x)); [|reflexivity].
  rewrite perm_swap. now constructor.
Qed.

Lemma sorted_perm (l : list A) : Permutation l (sorted ltb key l).
Proof.
  induction l as [|x l IH]; simpl; [constructor|].
  rewrite <- insert_by_perm. now constructor.
Qed.

Lemma insert_by_sorted (x : A) (l : list A) :
  StronglySorted (key_le ltb key) l ->
  StronglySorted (key_le ltb key) (insert_by ltb key x l).
Proof.
  induction 1 as [|y l Hs IH Hall]; simpl.
  - repeat constructor.
  - destruct (ltb (key y) (key x)) eqn:E.
    + constructor; [exact IH|].
      apply (Permutation_Forall (insert_by_perm x l)).
      constructor; [|exact Hall].
      unfold key_le. now apply ltb_asym.
    + constructor; [now constructor|].
      constructor; [exact E|].
      eapply Forall_impl; [|exact Hall].
      intros z Hz. unfold key_le in *. eapply ltb_negtrans; eauto.
Qed.

Lemma sorted_sorted (l : list A) :
  StronglySorted (key_le ltb key) (sorted ltb key l).
Proof.
  induction l as [|x l IH]; simpl; [constructor|].
  now apply insert_by_sorted.
Qed.
(** When keys tell elements apart, the sorted permutation is unique:
    whichever way a sort reaches it, the result is this list. *)
Lemma sorted_unique (l l' : list A) :
  (forall a b, key_le ltb key a b -> key_le ltb key b a -> a = b) ->
  Permutation l l' ->
  StronglySorted (key_le ltb key) l -> StronglySorted (key_le ltb key) l' ->
  l = l'.
Proof.
  intros Hanti. revert l'.
  induction l as [|a l IH]; intros l' P S S'.
  - apply Permutation_nil in P. now subst.
  - destruct l' as [|b l'].
    + apply Permutation_sym, Permutation_nil in P. discriminate.
    + apply StronglySorted_inv in S, S'.
      destruct S as [S Ha], S' as [S' Hb].
      rewrite Forall_forall in Ha, Hb.
      assert (E : a = b).
      { assert (Hina : In a (b :: l'))
          by (eapply Permutation_in; [exact P|now left]).
        assert (Hinb : In b (a :: l))
          by (eapply Permutation_in; [symmetry; exact P|now left]).
        destruct Hina as [->|Hina]; [reflexivity|].
        destruct Hinb as [->|Hinb]; [reflexivity|].
        apply Hanti; auto. }
      subst b. f_equal. apply IH; [|exact S|exact S'].
      eapply Permutation_cons_inv. exact P.
Qed.

Lemma sorted_is_the_sort (l out : list A) :
  (forall a b, key_le ltb key a b -> key_le ltb key b a -> a = b) ->
  Permutation l out -> StronglySorted (key_le ltb key) out ->
  out = sorted ltb key l.
Proof.
  intros Hanti P S. apply (sorted_unique _ _ Hanti).
  - rewrite <- P. apply sorted_perm.
  - exact S.
  - apply sorted_sorted.
Qed.
End SortedFacts.

(** ** Positions and order of occurrence *)

Lemma nth_error_occurs_before {A : Type} (l : list A) (i j : nat) (a b : A) :
  (i < j)%nat -> nth_error l i = Some a -> nth_error l j = Some b ->
  occurs_before l a b.
Proof.
  intros Hij Ha Hb.
  destruct (nth_error_split l i Ha) as (l1 & r & -> & Hlen).
  rewrite nth_error_app2 in Hb by lia.
  replace (j - List.length l1)%nat with (S (j - i - 1)) in Hb by lia.
  simpl in Hb.
  destruct (nth_error_split r _ Hb) as (l2 & l3 & -> & _).
  now exists l1, l2, l3.
Qed.

Lemma occurs_before_sorted {A : Type} (R : A -> A -> Prop) (l : list A) (a b : A) :
  StronglySorted R l -> occurs_before l a b -> R a b.
Proof.
  intros Hs (l1 & l2 & l3 & ->).
  induction l1 as [|x l1 IH]; simpl in Hs.
  - apply StronglySorted_inv in Hs. destruct Hs as [_ Hall].
    rewrite Forall_forall in Hall. apply Hall.
    apply in_or_app. right. now left.
  - apply StronglySorted_inv in Hs. tauto.
Qed.

Lemma occurs_before_filter {A : Type} (f : A -> bool) (l : list A) (a b : A) :
  occurs_before (filter f l) a b -> occurs_before l a b.
Proof.
  intros (m1 & m2 & m3 & E). revert m1 E.
  induction l as [|x l IH]; intros m1 E; simpl in E.
  - destruct m1; discriminate.
  - destruct (f x).
    + destruct m1 as [|y m1]; simpl in E; injection E as -> E.
      * assert (Hb : In b l).
        { assert (Hin : In b (filter f l))
            by (rewrite E; apply in_or_app; right; now left).
          apply filter_In in Hin. tauto. }
        apply in_split in Hb. destruct Hb as (u & v & ->).
        now exists [], u, v.
      * destruct (IH _ E) as (u1 & u2 & u3 & ->).
        now exists (y :: u1), u2, u3.
    + destruct (IH _ E) as (u1 & u2 & u3 & ->).
      now exists (x :: u1), u2, u3.
Qed.

Lemma nth_error_app_mid {A : Type} (l1 r : list A) (a : A) (p : nat) :
  NoDup (l1 +++ a :: r) -> nth_error (l1 +++ a :: r) p = Some a ->
  p = List.length l1.
Proof.
  intros Hnd Hp.
  assert (Hmid : nth_error (l1 +++ a :: r) (List.length l1) = Some a).
  { rewrite nth_error_app2 by lia. now rewrite Nat.sub_diag. }
  rewrite NoDup_nth_error in Hnd. apply Hnd.
  - apply nth_error_Some. congruence.
  - congruence.
Qed.

Lemma occurs_before_positions {A : Type} (l : list A) (a b : A) (p q : nat) :
  NoDup l -> occurs_before l a b ->
  nth_error l p = Some a -> nth_error l q = Some b -> (p < q)%nat.
Proof.
  intros Hnd (l1 & l2 & l3 & ->) Hp Hq.
  pose proof (nth_error_app_mid _ _ _ _ Hnd Hp) as ->.
  replace (l1 +++ a :: l2 +++ b :: l3) with ((l1 +++ a :: l2) +++ b :: l3)
    in Hnd, Hq by (now rewrite <- app_assoc).
  pose proof (nth_error_app_mid _ _ _ _ Hnd Hq) as ->.
  rewrite length_app. simpl. lia.
Qed.

(** ** Dictionaries *)

Lemma dict_lookup_set {V : Type} (k k' : string) (v : V) (d : dict V) :
  dict_lookup k (dict_set k' v d)
  = if String.eqb k k' then Some v else dict_lookup k d.
Proof.
  induction d as [|[k0 v0] d IH]; simpl; [reflexivity|].
  destruct (String.eqb_spec k' k0) as [->|Hne]; simpl.
  - now destruct (String.eqb k k0).
  - rewrite IH. destruct (String.eqb_spec k k0) as [->|Hne']; [|reflexivity].
    destruct (String.eqb_spec k0 k'); congruence.
Qed.

Lemma dict_lookup_In {V : Type} (k : string) (v : V) (d : dict V) :
  dict_lookup k d = Some v -> In (k, v) d.
Proof.
  induction d as [|[k0 v0] d IH]; simpl; [discriminate|].
  destruct (String.eqb_spec k k0) as [->|Hne].
  - intros [= ->]. now left.
  - auto.
Qed.

Lemma dict_lookup_keys {V : Type} (k : string) (d : dict V) :
  In k (dict_keys d) <-> exists v, dict_lookup k d = Some v.
Proof.
  split.
  - induction d as [|[k0 v0] d IH]; simpl; [tauto|].
    destruct (String.eqb_spec k k0) as [->|Hne]; [eauto|].
    intros [H|H]; [congruence|auto].
  - intros [v Hv]. apply dict_lookup_In in Hv.
    apply (in_map fst) in Hv. exact Hv.
Qed.

Lemma dict_lookup_wf {V : Type} (k : string) (v : V) (d : dict V) :
  dict_wf d -> In (k, v) d -> dict_lookup k d = Some v.
Proof.
  unfold dict_wf. induction d as [|[k0 v0] d IH]; simpl; [tauto|].
  intros Hnd [H|H].
  - injection H as -> ->. now rewrite String.eqb_refl.
  - apply NoDup_cons_iff in Hnd. destruct Hnd as [Hnotin Hnd].
    destruct (String.eqb_spec k k0) as [->|Hne]; [|auto].
    exfalso. apply Hnotin. apply (in_map fst) in H. exact H.
Qed.

Lemma dict_mem_keys {V : Type} (k : string) (d : dict V) :
  dict_mem k d = true <-> In k (dict_keys d).
Proof.
  rewrite dict_lookup_keys. unfold dict_mem.
  destruct (dict_lookup k d); split; eauto; try discriminate.
  intros [v Hv]. discriminate.
Qed.

Lemma list_mem_In (x : string) (l : list string) :
  list_mem x l = true <-> In x l.
Proof.
  unfold list_mem. rewrite existsb_exists. split.
  - intros (y & Hy & E). apply String.eqb_eq in E. now subst.
  - intros H. exists x. split; [exact H|apply String.eqb_refl].
Qed.

(** ** The index of [order_games] gives table positions *)

Lemma index_from_absent (k : string) (table : list string) (n : nat) (d : dict Z) :
  ~ In k table -> dict_lookup k (index_from n table d) = dict_lookup k d.
Proof.
  revert n d. induction table as [|x table IH]; intros n d Hk; [reflexivity|].
  unfold index_from, enumerate_from in *. simpl.
  rewrite IH by (simpl in Hk; tauto).
  rewrite dict_lookup_set.
  destruct (String.eqb_spec k x); [|reflexivity].
  exfalso. apply Hk. now left.
Qed.

Lemma index_from_present (k : string) (table : list string) (n p : nat) (d : dict Z) :
  NoDup table -> nth_error table p = Some k ->
  dict_lookup k (index_from n table d) = Some (Z.of_nat (n + p)).
Proof.
  revert n p d. induction table as [|x table IH]; intros n p d Hnd Hp.
  - destruct p; discriminate.
  - apply NoDup_cons_iff in Hnd. destruct Hnd as [Hx Hnd].
    destruct p as [|p]; simpl in Hp.
    + injection Hp as ->.
      pose proof (index_from_absent k table (S n) (dict_set k (Z.of_nat n) d) Hx) as E.
      unfold index_from, enumerate_from in *. simpl. rewrite E.
      rewrite dict_lookup_set, String.eqb_refl. f_equal. lia.
    + pose proof (IH (S n) p (dict_set x (Z.of_nat n) d) Hnd Hp) as E.
      unfold index_from, enumerate_from in *. simpl. rewrite E.
      f_equal. lia.
Qed.

Lemma GAME_ORDER_NoDup : NoDup GAME_ORDER.
Proof.
  apply (NoDup_count_occ' string_dec).
  intros x Hx. unfold GAME_ORDER in Hx. simpl in Hx.
  repeat (destruct Hx as [<-|Hx]; [reflexivity|]). contradiction.
Qed.

Lemma DAN_ORDER_NoDup : NoDup DAN_ORDER.
Proof.
  apply (NoDup_count_occ' string_dec).
  intros x Hx. unfold DAN_ORDER in Hx. simpl in Hx.
  repeat (destruct Hx as [<-|Hx]; [reflexivity|]). contradiction.
Qed.

Lemma game_key_present (k : string) (p : nat) :
  nth_error GAME_ORDER p = Some k ->
  game_key (index_of GAME_ORDER) k = (Z.of_nat p, k) /\ (p < 27)%nat.
Proof.
  intros Hp. split.
  - unfold game_key, dict_get_default.
    change (index_of GAME_ORDER) with (index_from 0 GAME_ORDER []).
    now rewrite (index_from_present k GAME_ORDER 0 p [] GAME_ORDER_NoDup Hp).
  - change 27%nat with (List.length GAME_ORDER).
    apply nth_error_Some. congruence.
Qed.

Lemma game_key_absent (k : string) :
  ~ In k GAME_ORDER -> game_key (index_of GAME_ORDER) k = (10000, k).
Proof.
  intros Hk. unfold game_key, dict_get_default.
  change (index_of GAME_ORDER) with (index_from 0 GAME_ORDER []).
  now rewrite (index_from_absent k GAME_ORDER 0 [] Hk).
Qed.

(** ** Row sorter *)

Lemma order_games_perm (keys : list string) :
  Permutation keys (order_games keys).
Proof. apply sorted_perm. Qed.

Lemma order_games_length (keys : list string) :
  List.length (order_games keys) = List.length keys.
Proof. symmetry. apply Permutation_length, order_games_perm. Qed.

Lemma string_ltb_antisym (a b : string) :
  String.ltb a b = false -> String.ltb b a = false -> a = b.
Proof.
  rewrite !string_ltb_false_leb. intros H1 H2. now apply String.leb_antisym.
Qed.

Lemma game_key_le_antisym (index : dict Z) (a b : string) :
  key_le tuple_ltb (game_key index) a b ->
  key_le tuple_ltb (game_key index) b a -> a = b.
Proof.
  unfold key_le, game_key, tuple_ltb. simpl.
  rewrite (Z.eqb_sym (dict_get_default a 10000 index)).
  destruct (Z.eqb_spec (dict_get_default b 10000 index)
                       (dict_get_default a 10000 index)) as [E|E].
  - intros H1 H2. now apply string_ltb_antisym.
  - rewrite !Z.ltb_ge. lia.
Qed.

(** The output of [order_games] does not depend on how [sorted] sorts:
    it is the one permutation of the input that is in key order. *)
Lemma order_games_unique (keys out : list string) :
  Permutation keys out ->
  StronglySorted (key_le tuple_ltb (game_key (index_of GAME_ORDER))) out ->
  out = order_games keys.
Proof.
  apply (sorted_is_the_sort tuple_ltb (game_key (index_of GAME_ORDER))
           tuple_ltb_asym tuple_ltb_negtrans).
  apply game_key_le_antisym.
Qed.

(** C8: [order_games] returns a permutation of its input, of the same
    length: no name is dropped and none is duplicated, every name occurs
    in the output as many times as in the input. *)
Theorem order_games_permutation (keys : list string) :
  Permutation keys (order_games keys)
  /\ List.length (order_games keys) = List.length keys
  /\ (forall k, count_occ string_dec (order_games keys) k
                = count_occ string_dec keys k)
  /\ (NoDup keys -> NoDup (order_games keys)).
Proof.
  split; [apply order_games_perm|]. split; [apply order_games_length|]. split.
  - intros k. symmetry. revert k.
    apply (Permutation_count_occ string_dec), order_games_perm.
  - apply Permutation_NoDup, order_games_perm.
Qed.

(** C1: [order_games] returns the given names, each as often as it was
    given, and of two names of the output the one that stands first (a)
    has the smaller position in [GAME_ORDER] when both are in the table,
    (b) is in the table whenever the second one is, and (c) is the
    lexicographically smaller one when neither is in the table. *)
Theorem order_games_chronology (keys : list string) :
  Permutation keys (order_games keys)
  /\ (forall k, In k keys <-> In k (order_games keys))
  /\ (forall (i j : nat) (a b : string),
         (i < j)%nat ->
         nth_error (order_games keys) i = Some a ->
         nth_error (order_games keys) j = Some b ->
         (forall p q, nth_error GAME_ORDER p = Some a ->
                      nth_error GAME_ORDER q = Some b ->
                      (p <= q)%nat /\ (a <> b -> (p < q)%nat))
         /\ (In b GAME_ORDER -> In a GAME_ORDER)
         /\ (~ In a GAME_ORDER -> ~ In b GAME_ORDER -> String.leb a b = true)).
Proof.
  split; [apply order_games_perm|]. split.
  { intros k. split; intros H.
    - eapply Permutation_in; [apply order_games_perm|exact H].
    - eapply Permutation_in; [symmetry; apply order_games_perm|exact H]. }
  intros i j a b.
  intros Hij Ha Hb.
  pose proof (nth_error_occurs_before _ _ _ _ _ Hij Ha Hb) as Hocc.
  pose proof (sorted_sorted tuple_ltb (game_key (index_of GAME_ORDER))
                tuple_ltb_asym tuple_ltb_negtrans keys) as Hs.
  fold (order_games keys) in Hs.
  pose proof (occurs_before_sorted _ _ _ _ Hs Hocc) as Hab.
  unfold key_le in Hab.
  split; [|split].
  - intros p q Hp Hq.
    destruct (game_key_present _ _ Hp) as [Ka _].
    destruct (game_key_present _ _ Hq) as [Kb _].
    rewrite Ka, Kb in Hab. unfold tuple_ltb in Hab. simpl in Hab.
    assert (Hle : (p <= q)%nat).
    { destruct (Z.eqb_spec (Z.of_nat q) (Z.of_nat p)); [lia|].
      apply Z.ltb_ge in Hab. lia. }
    split; [exact Hle|]. intros Hne.
    destruct (Nat.eq_dec p q) as [->|]; [congruence|lia].
  - intros Hbin.
    destruct (in_dec string_dec a GAME_ORDER) as [Hain|Hain]; [exact Hain|].
    exfalso.
    apply In_nth_error in Hbin. destruct Hbin as [q Hq].
    destruct (game_key_present _ _ Hq) as [Kb Hlt].
    rewrite Kb, (game_key_absent _ Hain) in Hab.
    unfold tuple_ltb in Hab. simpl in Hab.
    destruct (Z.eqb_spec (Z.of_nat q) 10000); [lia|].
    apply Z.ltb_ge in Hab. lia.
  - intros Hain Hbin.
    rewrite (game_key_absent _ Hain), (game_key_absent _ Hbin) in Hab.
    unfold tuple_ltb in Hab. simpl in Hab.
    now apply string_ltb_false_leb.
Qed.

(** ** Column count *)

Lemma fold_max_bounds (l : list (list string)) (m0 : Z) :
  let m := fold_left (fun m stages => Z.max m (len stages)) l m0 in
  m0 <= m
  /\ (forall stages, In stages l -> len stages <= m)
  /\ (m = m0 \/ exists stages, In stages l /\ m = len stages).
Proof.
  revert m0. induction l as [|s l IH]; intros m0; simpl.
  - split; [lia|]. split; [tauto|]. now left.
  - destruct (IH (Z.max m0 (len s))) as (H1 & H2 & H3).
    split; [lia|]. split.
    + intros stages [<-|Hin]; [lia|auto].
    + destruct H3 as [E|(stages & Hin & E)].
      * destruct (Z.max_spec m0 (len s)) as [[_ E']|[_ E']].
        -- right. exists s. split; [now left|congruence].
        -- left. congruence.
      * right. exists stages. split; [now right|exact E].
Qed.

Lemma len_nonneg {A : Type} (l : list A) : 0 <= len l.
Proof. unfold len. lia. Qed.

Lemma max_stage_len_nonneg (section : game_section) : 0 <= max_stage_len section.
Proof. apply (fold_max_bounds (dict_values section) 0). Qed.

Lemma max_stage_len_upper (section : game_section) (game : string) (stages : list string) :
  dict_lookup game section = Some stages -> len stages <= max_stage_len section.
Proof.
  intros H. apply dict_lookup_In in H.
  apply (fold_max_bounds (dict_values section) 0).
  apply (in_map snd) in H. exact H.
Qed.

Lemma list_mul_single {A : Type} (x : A) (n : Z) :
  list_mul [x] n = repeat x (Z.to_nat n).
Proof.
  unfold list_mul. induction (Z.to_nat n) as [|k IH]; simpl; [reflexivity|].
  now rewrite IH.
Qed.

Lemma len_header (cols : Z) : 0 <= cols -> len (header cols) = cols + 1.
Proof.
  intros H. unfold len, header, range.
  rewrite length_app, length_map, length_map, length_seq.
  cbn [List.length]. lia.
Qed.

Lemma len_sep (cols : Z) : 0 <= cols -> len (sep cols) = cols + 1.
Proof.
  intros H. unfold len, sep. rewrite list_mul_single, repeat_length. lia.
Qed.

Lemma len_row (cols : Z) (game : string) (stages : list string) :
  len stages <= cols -> len (row cols game stages) = cols + 1.
Proof.
  unfold row, len. intros H.
  rewrite list_mul_single, !length_app, repeat_length.
  cbn [List.length]. lia.
Qed.

(** ** Rows of the table *)

Lemma mapM_game_line (section : game_section) (cols : Z) (games : list string) :
  (forall g, In g games -> In g (dict_keys section)) ->
  exists rows,
    mapM (game_line section cols) games
    = Ok (map (fun r => table_line (map escape_cell r)) rows)
    /\ Forall2 (fun game r =>
                  exists stages, dict_lookup game section = Some stages
                                 /\ r = row cols game stages)
               games rows.
Proof.
  induction games as [|g games IH]; intros Hin.
  - exists []. split; [reflexivity|constructor].
  - destruct IH as (rows & E & HF); [intros; apply Hin; now right|].
    destruct (proj1 (dict_lookup_keys g section)) as [stages Hs];
      [apply Hin; now left|].
    exists (row cols g stages :: rows). split.
    + simpl. unfold game_line at 1, dict_get. rewrite Hs. simpl.
      now rewrite E.
    + constructor; [eauto|exact HF].
Qed.

Lemma order_games_In (keys : list string) (g : string) :
  In g (order_games keys) <-> In g keys.
Proof.
  pose proof (order_games_perm keys) as P. split; intros H.
  - eapply Permutation_in; [symmetry; exact P|exact H].
  - eapply Permutation_in; [exact P|exact H].
Qed.

Lemma table_lines_ok (dan_name : string) (section : game_section) :
  let cols := max_stage_len section in
  exists rows,
    table_lines dan_name section
    = Ok ([ "### " ++ dan_name ++ nl;
            table_line (header cols);
            table_line (sep cols) ]
          +++ map (fun r => table_line (map escape_cell r)) rows +++ [""])
    /\ Forall2 (fun game r =>
                  exists stages, dict_lookup game section = Some stages
                                 /\ r = row cols game stages)
               (order_games (dict_keys section)) rows.
Proof.
  intros cols.
  destruct (mapM_game_line section cols (order_games (dict_keys section)))
    as (rows & E & HF); [intros g; apply order_games_In|].
  exists rows. split; [|exact HF].
  unfold table_lines. fold cols. now rewrite E.
Qed.

Lemma render_table_for_dan_ok (dan_name : string) (section : game_section) :
  exists text, render_table_for_dan dan_name section = Ok text.
Proof.
  destruct section as [|p section]; [now exists ""|].
  destruct (table_lines_ok dan_name (p :: section)) as (rows & E & _).
  unfold render_table_for_dan. rewrite E. simpl. eauto.
Qed.

(** C3: the column count of a section bounds the length of every stage
    list of the section and is the length of one of them when there is
    one; it is 0 for the empty section and when every stage list is
    empty; and the header of the table has that many stage columns. *)
Theorem max_stage_len_is_maximum (section : game_section) :
  (forall stages, In stages (dict_values section) ->
                  len stages <= max_stage_len section)
  /\ (section <> [] ->
      exists stages, In stages (dict_values section)
                     /\ max_stage_len section = len stages)
  /\ (section = [] -> max_stage_len section = 0)
  /\ ((forall stages, In stages (dict_values section) -> stages = []) ->
      max_stage_len section = 0)
  /\ len (header (max_stage_len section)) = max_stage_len section + 1
  /\ (forall dan_name,
         exists rows,
           table_lines dan_name section
           = Ok ([ "### " ++ dan_name ++ nl;
                   table_line (header (max_stage_len section));
                   table_line (sep (max_stage_len section)) ]
                 +++ rows +++ [""])).
Proof.
  destruct (fold_max_bounds (dict_values section) 0) as (H0 & Hub & Hatt).
  fold (max_stage_len section) in H0, Hub, Hatt.
  split; [exact Hub|]. split; [|split; [|split; [|split]]].
  - intros Hne. destruct Hatt as [E|Hatt]; [|exact Hatt].
    destruct section as [|[g s] section]; [contradiction|].
    exists s. split; [now left|].
    assert (len s <= max_stage_len ((g, s) :: section))
      by (apply Hub; now left).
    pose proof (len_nonneg s). lia.
  - intros ->. reflexivity.
  - intros Hall. destruct Hatt as [E|(stages & Hin & E)]; [exact E|].
    rewrite E, (Hall _ Hin). reflexivity.
  - now apply len_header.
  - intros dan_name.
    destruct (table_lines_ok dan_name section) as (rows & E & _). eauto.
Qed.

(** ** Pipes and delimiters *)

Lemma string_app_assoc (a b c : string) : (a ++ b) ++ c = a ++ b ++ c.
Proof. induction a as [|x a IH]; simpl; [reflexivity|now rewrite IH]. Qed.

Lemma string_app_nil_r (a : string) : a ++ "" = a.
Proof. induction a as [|x a IH]; simpl; [reflexivity|now rewrite IH]. Qed.

Lemma split_bare_from_length (e : bool) (s : string) :
  List.length (split_bare_from e s) = S (bare_pipes_from e s).
Proof.
  revert e. induction s as [|c s IH]; intros e; simpl; [reflexivity|].
  specialize (IH (Ascii.eqb c backslash)).
  destruct (Ascii.eqb c pipe && negb e); simpl; [now rewrite IH|].
  destruct (split_bare_from (Ascii.eqb c backslash) s); simpl in *; lia.
Qed.

Lemma escape_cell_cons (c : ascii) (s : string) :
  escape_cell (String c s)
  = if Ascii.eqb c pipe then String backslash (String pipe (escape_cell s))
    else String c (escape_cell s).
Proof. reflexivity. Qed.

Lemma escape_cell_no_bare (s : string) (e : bool) :
  bare_pipes_from e (escape_cell s) = 0%nat.
Proof.
  revert e. induction s as [|c s IH]; intros e; [reflexivity|].
  rewrite escape_cell_cons.
  destruct (Ascii.eqb c pipe) eqn:E.
  - cbn [bare_pipes_from]. rewrite IH.
    change (Ascii.eqb backslash pipe) with false.
    change (Ascii.eqb backslash backslash) with true.
    change (Ascii.eqb pipe pipe) with true. reflexivity.
  - cbn [bare_pipes_from]. rewrite E, IH. reflexivity.
Qed.

Lemma escape_cell_head (s : string) :
  match escape_cell s with
  | String c _ => Ascii.eqb c pipe = false
  | EmptyString => True
  end.
Proof.
  destruct s as [|c s]; [exact I|]. rewrite escape_cell_cons.
  destruct (Ascii.eqb c pipe) eqn:E; [reflexivity|exact E].
Qed.

Lemma unescape_escape_cell (s : string) : unescape (escape_cell s) = s.
Proof.
  induction s as [|c s IH]; [reflexivity|].
  rewrite escape_cell_cons.
  destruct (Ascii.eqb c pipe) eqn:E.
  - apply Ascii.eqb_eq in E. subst c.
    cbn [unescape].
    change (Ascii.eqb backslash backslash && Ascii.eqb pipe pipe) with true.
    cbn iota. now rewrite IH.
  - pose proof (escape_cell_head s) as Hh.
    cbn [unescape]. fold (unescape (escape_cell s)).
    destruct (escape_cell s) as [|c' s'] eqn:Es.
    + destruct s as [|x s]; [reflexivity|].
      rewrite escape_cell_cons in Es. destruct (Ascii.eqb x pipe); discriminate.
    + rewrite Hh, andb_false_r. now rewrite IH.
Qed.

Lemma escape_cell_no_pipe (s : string) : no_pipe s = true -> escape_cell s = s.
Proof.
  induction s as [|c s IH]; [reflexivity|]. simpl. intros H.
  apply andb_prop in H. destruct H as [Hc Hs].
  rewrite escape_cell_cons. apply negb_true_iff in Hc. rewrite Hc.
  now rewrite IH.
Qed.

Lemma no_pipe_no_bare (s : string) (e : bool) :
  no_pipe s = true -> bare_pipes_from e s = 0%nat.
Proof.
  intros H. rewrite <- (escape_cell_no_pipe s H). apply escape_cell_no_bare.
Qed.

Lemma no_pipe_app (a b : string) : no_pipe (a ++ b) = no_pipe a && no_pipe b.
Proof.
  induction a as [|c a IH]; simpl; [reflexivity|].
  now rewrite IH, andb_assoc.
Qed.

Lemma no_pipe_uint (d : Decimal.uint) : no_pipe (NilEmpty.string_of_uint d) = true.
Proof. induction d; simpl; auto. Qed.

Lemma no_pipe_str (i : Z) : no_pipe (str i) = true.
Proof.
  unfold str, NilZero.string_of_int, NilZero.string_of_uint.
  destruct (Z.to_int i) as [d|d]; destruct d; simpl;
    try reflexivity; apply no_pipe_uint.
Qed.

Lemma split_bare_cell (s t : string) (e : bool) :
  bare_pipes_from e s = 0%nat ->
  split_bare_from e (s ++ " |" ++ t) = (s ++ " ") :: split_bare_from false t.
Proof.
  revert e. induction s as [|c s IH]; intros e H.
  - reflexivity.
  - cbn [bare_pipes_from] in H.
    destruct (Ascii.eqb c pipe && negb e) eqn:E; [discriminate|].
    simpl in H.
    change (String c s ++ " |" ++ t) with (String c (s ++ " |" ++ t)).
    cbn [split_bare_from]. rewrite E.
    now rewrite (IH _ H).
Qed.

Lemma join_cells_text (c : string) (cells : list string) :
  join " | " (c :: cells) ++ " |" = c ++ " |" ++ cells_text cells.
Proof.
  unfold join. revert c. induction cells as [|c2 cells IH]; intros c.
  - reflexivity.
  - change (String.concat " | " (c :: c2 :: cells))
      with (c ++ " | " ++ String.concat " | " (c2 :: cells)).
    rewrite !string_app_assoc, IH. reflexivity.
Qed.

Lemma table_line_cells_text (c : string) (cells : list string) :
  table_line (c :: cells) = String pipe (cells_text (c :: cells)).
Proof.
  unfold table_line. rewrite join_cells_text. reflexivity.
Qed.

Lemma split_bare_cells_text (cells : list string) :
  Forall (fun c => bare_pipes c = 0%nat) cells ->
  split_bare_from false (cells_text cells) = map padded cells +++ [""].
Proof.
  induction 1 as [|c cells Hc _ IH]; [reflexivity|].
  change (cells_text (c :: cells)) with (" " ++ c ++ " |" ++ cells_text cells).
  rewrite <- string_app_assoc.
  rewrite split_bare_cell by exact Hc.
  rewrite IH. reflexivity.
Qed.

Lemma split_bare_table_line (cells : list string) :
  cells <> [] ->
  Forall (fun c => bare_pipes c = 0%nat) cells ->
  split_bare (table_line cells) = [""] +++ map padded cells +++ [""].
Proof.
  intros Hne Hall. destruct cells as [|c cells]; [contradiction|].
  rewrite table_line_cells_text. unfold split_bare.
  cbn [split_bare_from].
  change (Ascii.eqb pipe pipe && negb false) with true. cbn iota.
  change (Ascii.eqb pipe backslash) with false.
  now rewrite split_bare_cells_text.
Qed.

Lemma bare_pipes_table_line (cells : list string) :
  cells <> [] ->
  Forall (fun c => bare_pipes c = 0%nat) cells ->
  bare_pipes (table_line cells) = S (List.length cells).
Proof.
  intros Hne Hall.
  pose proof (split_bare_from_length false (table_line cells)) as E.
  fold (split_bare (table_line cells)) in E.
  rewrite (split_bare_table_line cells Hne Hall) in E.
  rewrite !length_app, length_map in E. cbn [List.length] in E.
  unfold bare_pipes, split_bare in *. lia.
Qed.

(** ** Rank table renderer *)

Lemma Forall2_map_r {A B C : Type} (Q : A -> C -> Prop) (f : B -> C)
      (l : list A) (rows : list B) :
  Forall2 (fun x r => Q x (f r)) l rows -> Forall2 Q l (map f rows).
Proof. induction 1; simpl; constructor; auto. Qed.

Lemma Forall2_In_l {A B : Type} (P : A -> B -> Prop) (l : list A) (l' : list B) (x : A) :
  Forall2 P l l' -> In x l -> exists y, In y l' /\ P x y.
Proof.
  induction 1 as [|a b l l' Hab _ IH]; simpl; [tauto|].
  intros [<-|Hin].
  - exists b. auto.
  - destruct (IH Hin) as (y & Hy & Hp). exists y. auto.
Qed.

Lemma Forall2_Forall_r {A B : Type} (P : A -> B -> Prop) (Q : B -> Prop)
      (l : list A) (l' : list B) :
  Forall2 P l l' -> (forall x y, P x y -> Q y) -> Forall Q l'.
Proof. induction 1; constructor; eauto. Qed.

Lemma render_table_for_dan_lines (dan_name : string) (section : game_section) :
  section <> [] ->
  let cols := max_stage_len section in
  exists rows,
    render_table_for_dan dan_name section
    = Ok (join nl ([ "### " ++ dan_name ++ nl;
                     table_line (header cols);
                     table_line (sep cols) ]
                   +++ map (fun r => table_line (map escape_cell r)) rows
                   +++ [""]))
    /\ Forall2 (fun game r =>
                  exists stages, dict_lookup game section = Some stages
                                 /\ r = row cols game stages)
               (order_games (dict_keys section)) rows.
Proof.
  intros Hne cols.
  destruct (table_lines_ok dan_name section) as (rows & E & HF).
  exists rows. split; [|exact HF].
  destruct section as [|p section]; [contradiction|].
  unfold render_table_for_dan. rewrite E. reflexivity.
Qed.

Lemma unescape_escape_cells (cells : list string) :
  map unescape (map escape_cell cells) = cells.
Proof.
  rewrite map_map. rewrite <- (map_id cells) at 2.
  apply map_ext. apply unescape_escape_cell.
Qed.

(** C2: for a section that is not empty the renderer emits, after the
    heading, the header and the separator, one line per key of the
    section, in the order of [order_games]; the cells of the line of a
    game are its name, its stage titles in list order and
    [cols - len(stages)] empty cells, each written with its pipes escaped,
    so that reading the written cells back gives these texts.  The section
    of the example gives a table of two rows under Game, Stage 1, Stage 2,
    and the last cell of the row of 7th style is empty. *)
Theorem render_table_for_dan_rows :
  (forall (dan_name : string) (section : game_section),
      section <> [] ->
      let cols := max_stage_len section in
      exists lines,
        render_table_for_dan dan_name section
        = Ok (join nl ([ "### " ++ dan_name ++ nl;
                         table_line (header cols);
                         table_line (sep cols) ]
                       +++ lines +++ [""]))
        /\ List.length lines = List.length (dict_keys section)
        /\ Forall2 (fun game line =>
                      exists stages,
                        dict_lookup game section = Some stages
                        /\ 0 <= cols - len stages
                        /\ let cells :=
                             [game] +++ stages
                             +++ repeat "" (Z.to_nat (cols - len stages)) in
                           line = table_line (map escape_cell cells)
                           /\ map unescape (map escape_cell cells) = cells)
                   (order_games (dict_keys section)) lines
        /\ (dict_wf section ->
            forall game stages,
              In (game, stages) section ->
              In (table_line
                    (map escape_cell
                         ([game] +++ stages
                          +++ repeat "" (Z.to_nat (cols - len stages)))))
                 lines))
  /\ (forall cell, no_pipe cell = true -> escape_cell cell = cell)
  /\ header (max_stage_len first_dan_example) = ["Game"; "Stage 1"; "Stage 2"]
  /\ mapM (fun game =>
             stages <- dict_get game first_dan_example ;;
             Ok (map escape_cell (row (max_stage_len first_dan_example) game stages)))
          (order_games (dict_keys first_dan_example))
     = Ok [ ["7th style"; "SONIC BOOM"; ""];
            ["8th style"; "SOUND CROSS"; "V"] ]
  /\ render_table_for_dan "1st Dan" first_dan_example
     = Ok ("### 1st Dan" ++ nl ++ nl
           ++ "| Game | Stage 1 | Stage 2 |" ++ nl
           ++ "| --- | --- | --- |" ++ nl
           ++ "| 7th style | SONIC BOOM |  |" ++ nl
           ++ "| 8th style | SOUND CROSS | V |" ++ nl).
Proof.
  split; [|split; [exact escape_cell_no_pipe|repeat split; reflexivity]].
  intros dan_name section Hne cols.
  destruct (render_table_for_dan_lines dan_name section Hne) as (rows & E & HF).
  fold cols in E, HF.
  assert (HF' : Forall2 (fun game line =>
                      exists stages,
                        dict_lookup game section = Some stages
                        /\ 0 <= cols - len stages
                        /\ let cells :=
                             [game] +++ stages
                             +++ repeat "" (Z.to_nat (cols - len stages)) in
                           line = table_line (map escape_cell cells)
                           /\ map unescape (map escape_cell cells) = cells)
                   (order_games (dict_keys section))
                   (map (fun r => table_line (map escape_cell r)) rows)).
  { apply Forall2_map_r. eapply Forall2_impl; [|exact HF].
    intros game r (stages & Hs & ->). exists stages.
    split; [exact Hs|]. split.
    - pose proof (max_stage_len_upper _ _ _ Hs). fold cols in H. lia.
    - unfold row. rewrite list_mul_single.
      split; [reflexivity|apply unescape_escape_cells]. }
  exists (map (fun r => table_line (map escape_cell r)) rows).
  split; [exact E|]. split; [|split; [exact HF'|]].
  - rewrite <- (Forall2_length HF'). apply order_games_length.
  - intros Hwf game stages Hin.
    assert (Hg : In game (order_games (dict_keys section))).
    { apply order_games_In. apply (in_map fst) in Hin. exact Hin. }
    destruct (Forall2_In_l _ _ _ _ HF' Hg)
      as (line & Hl & stages' & Hs & _ & -> & _).
    rewrite (dict_lookup_wf _ _ _ Hwf Hin) in Hs. injection Hs as <-.
    exact Hl.
Qed.

Lemma header_no_bare (cols : Z) :
  Forall (fun c => bare_pipes c = 0%nat) (header cols).
Proof.
  unfold header. apply Forall_app. split.
  - repeat constructor.
  - apply Forall_map. apply Forall_forall. intros i _.
    apply no_pipe_no_bare. rewrite no_pipe_app. apply no_pipe_str.
Qed.

Lemma sep_no_bare (cols : Z) :
  Forall (fun c => bare_pipes c = 0%nat) (sep cols).
Proof.
  unfold sep. rewrite list_mul_single. apply Forall_forall.
  intros c Hc. apply repeat_spec in Hc. now subst.
Qed.

Lemma escaped_no_bare (cells : list string) :
  Forall (fun c => bare_pipes c = 0%nat) (map escape_cell cells).
Proof.
  apply Forall_map. apply Forall_forall. intros c _.
  apply escape_cell_no_bare.
Qed.

Lemma header_nonempty (cols : Z) : header cols <> [].
Proof. discriminate. Qed.

Lemma sep_nonempty (cols : Z) : 0 <= cols -> sep cols <> [].
Proof.
  intros H E. apply (f_equal len) in E. rewrite len_sep in E by exact H.
  unfold len in E. simpl in E. lia.
Qed.

Lemma row_nonempty (cols : Z) (game : string) (stages : list string) :
  map escape_cell (row cols game stages) <> [].
Proof. discriminate. Qed.

(** C10: for a section that is not empty, the header, the separator and
    the row of every game each have [cols + 1] cells, where [cols] is the
    column count of the section; the padding count of every row is not
    negative; and each of these lines, as emitted, holds [cols + 2] bare
    pipes, the delimiters around its [cols + 1] cells. *)
Theorem table_lines_cell_count (dan_name : string) (section : game_section) :
  section <> [] ->
  let cols := max_stage_len section in
  exists rows,
    render_table_for_dan dan_name section
    = Ok (join nl ([ "### " ++ dan_name ++ nl;
                     table_line (header cols);
                     table_line (sep cols) ]
                   +++ map (fun r => table_line (map escape_cell r)) rows
                   +++ [""]))
    /\ Forall2 (fun game r =>
                  exists stages, dict_lookup game section = Some stages
                                 /\ r = row cols game stages
                                 /\ 0 <= cols - len stages)
               (order_games (dict_keys section)) rows
    /\ Forall (fun cells => len cells = cols + 1)
              (header cols :: sep cols :: map (map escape_cell) rows)
    /\ Forall (fun line => Z.of_nat (bare_pipes line) = cols + 2)
              (table_line (header cols) :: table_line (sep cols)
               :: map (fun r => table_line (map escape_cell r)) rows).
Proof.
  intros Hne cols.
  destruct (render_table_for_dan_lines dan_name section Hne) as (rows & E & HF).
  fold cols in E, HF.
  pose proof (max_stage_len_nonneg section) as Hcols. fold cols in Hcols.
  assert (HF' : Forall2 (fun game r =>
                  exists stages, dict_lookup game section = Some stages
                                 /\ r = row cols game stages
                                 /\ 0 <= cols - len stages)
               (order_games (dict_keys section)) rows).
  { eapply Forall2_impl; [|exact HF].
    intros game r (stages & Hs & ->). exists stages.
    pose proof (max_stage_len_upper _ _ _ Hs). fold cols in H.
    repeat split; [exact Hs|lia]. }
  assert (Hrows : Forall (fun r => len (map escape_cell r) = cols + 1
                                   /\ map escape_cell r <> []) rows).
  { eapply Forall2_Forall_r; [exact HF'|].
    intros game r (stages & _ & -> & Hpad). split.
    - unfold len. rewrite length_map.
      apply (len_row cols game stages). lia.
    - apply row_nonempty. }
  exists rows. split; [exact E|]. split; [exact HF'|]. split.
  - constructor; [now apply len_header|].
    constructor; [now apply len_sep|].
    apply Forall_map. eapply Forall_impl; [|exact Hrows].
    intros r [L _]. exact L.
  - constructor.
    { rewrite bare_pipes_table_line
        by (auto using header_nonempty, header_no_bare).
      pose proof (len_header cols Hcols) as L. unfold len in L. lia. }
    constructor.
    { rewrite bare_pipes_table_line
        by (auto using sep_nonempty, sep_no_bare).
      pose proof (len_sep cols Hcols) as L. unfold len in L. lia. }
    apply Forall_map. eapply Forall_impl; [|exact Hrows].
    intros r [L Hr]. rewrite bare_pipes_table_line
      by (auto using escaped_no_bare).
    unfold len in L. lia.
Qed.

(** C4: in the line of every game, each cell is its text with a backslash
    put before every pipe: the written cell holds no bare pipe, and
    dropping the backslashes that stand before pipes gives the text back.
    The bare pipes of a table line are its delimiters: cutting the line of
    a game, the header or the separator at them gives the written cells,
    each between two spaces, and nothing else. *)
Theorem cell_pipes_are_escaped (dan_name : string) (section : game_section) :
  section <> [] ->
  let cols := max_stage_len section in
  exists rows,
    render_table_for_dan dan_name section
    = Ok (join nl ([ "### " ++ dan_name ++ nl;
                     table_line (header cols);
                     table_line (sep cols) ]
                   +++ map (fun r => table_line (map escape_cell r)) rows
                   +++ [""]))
    /\ Forall2 (fun game r =>
                  exists stages, dict_lookup game section = Some stages
                                 /\ r = [game] +++ stages
                                        +++ repeat "" (Z.to_nat (cols - len stages)))
               (order_games (dict_keys section)) rows
    /\ Forall (fun r =>
                 Forall (fun cell =>
                           bare_pipes (escape_cell cell) = 0%nat
                           /\ unescape (escape_cell cell) = cell) r
                 /\ split_bare (table_line (map escape_cell r))
                    = [""] +++ map (fun cell => padded (escape_cell cell)) r
                      +++ [""]
                 /\ bare_pipes (table_line (map escape_cell r))
                    = S (List.length r))
              rows
    /\ split_bare (table_line (header cols))
       = [""] +++ map padded (header cols) +++ [""]
    /\ split_bare (table_line (sep cols))
       = [""] +++ map padded (sep cols) +++ [""].
Proof.
  intros Hne cols.
  destruct (render_table_for_dan_lines dan_name section Hne) as (rows & E & HF).
  fold cols in E, HF.
  pose proof (max_stage_len_nonneg section) as Hcols. fold cols in Hcols.
  exists rows. split; [exact E|].
  split; [|split; [|split;
    [ apply split_bare_table_line; auto using header_nonempty, header_no_bare
    | apply split_bare_table_line; auto using sep_nonempty, sep_no_bare ]]].
  - eapply Forall2_impl; [|exact HF].
    intros game r (stages & Hs & ->). exists stages. split; [exact Hs|].
    unfold row. now rewrite list_mul_single.
  - eapply Forall2_Forall_r; [exact HF|].
    intros game r (stages & _ & ->). split; [|split].
    + apply Forall_forall. intros cell _. split.
      * apply escape_cell_no_bare.
      * apply unescape_escape_cell.
    + rewrite split_bare_table_line
        by (auto using row_nonempty, escaped_no_bare).
      now rewrite map_map.
    + rewrite bare_pipes_table_line
        by (auto using row_nonempty, escaped_no_bare).
      now rewrite length_map.
Qed.

(** ** Document renderer *)

Lemma known_In (data : rank_section) (d : string) :
  In d (known data) <-> In d DAN_ORDER /\ In d (dict_keys data).
Proof. unfold known. now rewrite filter_In, dict_mem_keys. Qed.

Lemma sorted_str_In (l : list string) (d : string) :
  In d (sorted_str l) <-> In d l.
Proof.
  pose proof (sorted_perm String.ltb (fun s => s) l) as P.
  split; intros H.
  - eapply Permutation_in; [symmetry; exact P|exact H].
  - eapply Permutation_in; [exact P|exact H].
Qed.

Lemma extras_In (data : rank_section) (d : string) :
  In d (extras data) <-> In d (dict_keys data) /\ ~ In d DAN_ORDER.
Proof.
  unfold extras. rewrite sorted_str_In, filter_In, negb_true_iff.
  rewrite <- (list_mem_In d DAN_ORDER).
  destruct (list_mem d DAN_ORDER); split; intros [H1 H2]; split;
    solve [ assumption | reflexivity | discriminate
          | intros E; discriminate E | exfalso; apply H2; reflexivity ].
Qed.

Lemma StronglySorted_impl {A : Type} (R R' : A -> A -> Prop) (l : list A) :
  (forall a b, R a b -> R' a b) -> StronglySorted R l -> StronglySorted R' l.
Proof.
  intros HR. induction 1 as [|a l _ IH Hall]; constructor; [exact IH|].
  eapply Forall_impl; [|exact Hall]. auto.
Qed.

(** Likewise for [sorted] on strings. *)
Lemma sorted_str_unique (l out : list string) :
  Permutation l out ->
  StronglySorted (key_le String.ltb (fun s => s)) out ->
  out = sorted_str l.
Proof.
  apply (sorted_is_the_sort String.ltb (fun s => s)
           string_ltb_asym string_ltb_negtrans).
  intros a b H1 H2. unfold key_le in *. now apply string_ltb_antisym.
Qed.

Lemma extras_sorted (data : rank_section) :
  StronglySorted (fun a b => String.leb a b = true) (extras data).
Proof.
  pose proof (sorted_sorted String.ltb (fun s => s)
                string_ltb_asym string_ltb_negtrans
                (filter (fun d => negb (list_mem d DAN_ORDER)) (dict_keys data)))
    as Hs.
  eapply StronglySorted_impl; [|exact Hs].
  intros a b Hab. now apply string_ltb_false_leb.
Qed.

Lemma rank_order_perm (data : rank_section) :
  dict_wf data -> Permutation (known data +++ extras data) (dict_keys data).
Proof.
  intros Hwf. apply NoDup_Permutation.
  - apply NoDup_app.
    + apply NoDup_filter, DAN_ORDER_NoDup.
    + eapply Permutation_NoDup; [apply sorted_perm|].
      apply NoDup_filter, Hwf.
    + intros d Hk He. apply known_In in Hk. apply extras_In in He. tauto.
  - exact Hwf.
  - intros d. rewrite in_app_iff, known_In, extras_In.
    destruct (in_dec string_dec d DAN_ORDER); tauto.
Qed.

Lemma mapM_Forall2 {A B : Type} (f : A -> res B) (l : list A) :
  (forall x, In x l -> exists y, f x = Ok y) ->
  exists ys, mapM f l = Ok ys /\ Forall2 (fun x y => f x = Ok y) l ys.
Proof.
  induction l as [|x l IH]; intros H.
  - exists []. split; [reflexivity|constructor].
  - destruct (H x) as [y Hy]; [now left|].
    destruct IH as (ys & E & HF); [intros; apply H; now right|].
    exists (y :: ys). split; [simpl; now rewrite Hy, E|now constructor].
Qed.

Lemma render_dataset_ok (title : string) (data : rank_section) :
  exists tables,
    render_dataset title data = Ok (("## " ++ title ++ nl) :: tables)
    /\ Forall2 (fun dan_name text =>
                  exists section,
                    dict_lookup dan_name data = Some section
                    /\ render_table_for_dan dan_name section = Ok text)
               (known data +++ extras data) tables.
Proof.
  destruct (mapM_Forall2
              (fun dan_name =>
                 section <- dict_get dan_name data ;;
                 render_table_for_dan dan_name section)
              (known data +++ extras data)) as (tables & E & HF).
  - intros d Hd.
    assert (Hk : In d (dict_keys data)).
    { apply in_app_or in Hd. destruct Hd as [Hd|Hd].
      - apply known_In in Hd. tauto.
      - apply extras_In in Hd. tauto. }
    apply dict_lookup_keys in Hk. destruct Hk as [section Hs].
    unfold dict_get. rewrite Hs. apply render_table_for_dan_ok.
  - exists tables. split.
    + unfold render_dataset. now rewrite E.
    + eapply Forall2_impl; [|exact HF].
      intros d text Hd. unfold dict_get in Hd.
      destruct (dict_lookup d data) as [section|]; [|discriminate].
      exists section. auto.
Qed.

Lemma markdown_blocks_ok (datasets : list (string * rank_section)) :
  exists blocks,
    markdown_blocks datasets
    = Ok (("# Beatmania IIDX Dan Courses" ++ nl) :: List.concat blocks)
    /\ Forall2 (fun p b => render_dataset (fst p) (snd p) = Ok b) datasets blocks.
Proof.
  destruct (mapM_Forall2 (fun p => render_dataset (fst p) (snd p)) datasets)
    as (blocks & E & HF).
  - intros p _. destruct (render_dataset_ok (fst p) (snd p)) as (t & Ht & _).
    eauto.
  - exists blocks. split; [|exact HF].
    unfold markdown_blocks. now rewrite E.
Qed.

Lemma nth_error_app_cases {A : Type} (l m : list A) (i j : nat) (a b : A) :
  (i < j)%nat ->
  nth_error (l +++ m) i = Some a -> nth_error (l +++ m) j = Some b ->
  occurs_before l a b \/ (In a l /\ In b m) \/ occurs_before m a b.
Proof.
  intros Hij Ha Hb.
  destruct (Nat.lt_ge_cases j (List.length l)) as [Hj|Hj].
  - left. rewrite nth_error_app1 in Ha, Hb by lia.
    exact (nth_error_occurs_before _ _ _ _ _ Hij Ha Hb).
  - rewrite nth_error_app2 in Hb by lia.
    destruct (Nat.lt_ge_cases i (List.length l)) as [Hi|Hi].
    + right. left. rewrite nth_error_app1 in Ha by lia.
      split; eapply nth_error_In; eauto.
    + right. right. rewrite nth_error_app2 in Ha by lia.
      apply (nth_error_occurs_before m (i - List.length l) (j - List.length l));
        [lia|exact Ha|exact Hb].
Qed.

Lemma occurs_before_In {A : Type} (l : list A) (a b : A) :
  occurs_before l a b -> In a l /\ In b l.
Proof.
  intros (l1 & l2 & l3 & ->). split.
  - apply in_or_app. right. now left.
  - apply in_or_app. right. right. apply in_or_app. right. now left.
Qed.

(** C5: the tables of a dataset are rendered for the ranks
    [known + extras], one table per rank in that order.  The ranks are the
    keys of the dataset, each once.  Of two ranks in that order, the first
    is in [DAN_ORDER] whenever the second is; two ranks of [DAN_ORDER]
    stand as in [DAN_ORDER]; and two ranks outside it stand in
    lexicographic order. *)
Theorem render_markdown_rank_order :
  (forall datasets,
      exists blocks,
        render_markdown datasets
        = Ok (join nl (("# Beatmania IIDX Dan Courses" ++ nl) :: List.concat blocks))
        /\ Forall2 (fun p b => render_dataset (fst p) (snd p) = Ok b)
                   datasets blocks)
  /\ (forall title data,
         let order := known data +++ extras data in
         (exists tables,
             render_dataset title data = Ok (("## " ++ title ++ nl) :: tables)
             /\ Forall2 (fun dan_name text =>
                           exists section,
                             dict_lookup dan_name data = Some section
                             /\ render_table_for_dan dan_name section = Ok text)
                        order tables)
         /\ (forall d, In d order -> In d (dict_keys data))
         /\ (dict_wf data -> Permutation order (dict_keys data))
         /\ (forall i j a b,
                (i < j)%nat ->
                nth_error order i = Some a -> nth_error order j = Some b ->
                (In b DAN_ORDER -> In a DAN_ORDER)
                /\ (forall p q, nth_error DAN_ORDER p = Some a ->
                                nth_error DAN_ORDER q = Some b -> (p < q)%nat)
                /\ (~ In a DAN_ORDER -> ~ In b DAN_ORDER ->
                    String.leb a b = true))).
Proof.
  split.
  - intros datasets.
    destruct (markdown_blocks_ok datasets) as (blocks & E & HF).
    exists blocks. split; [|exact HF].
    unfold render_markdown. now rewrite E.
  - intros title data order.
    split; [apply render_dataset_ok|].
    split; [|split; [apply rank_order_perm|]].
    + intros d Hd. apply in_app_or in Hd. destruct Hd as [Hd|Hd].
      * apply known_In in Hd. tauto.
      * apply extras_In in Hd. tauto.
    + intros i j a b Hij Ha Hb.
      destruct (nth_error_app_cases _ _ _ _ _ _ Hij Ha Hb)
        as [Hocc|[[Hina Hinb]|Hocc]].
      * pose proof (occurs_before_In _ _ _ Hocc) as [Hina Hinb].
        apply known_In in Hina, Hinb.
        split; [tauto|]. split; [|tauto].
        intros p q Hp Hq.
        apply occurs_before_filter in Hocc.
        exact (occurs_before_positions _ _ _ _ _ DAN_ORDER_NoDup Hocc Hp Hq).
      * apply known_In in Hina. apply extras_In in Hinb.
        split; [tauto|]. split; [|tauto].
        intros p q _ Hq. apply nth_error_In in Hq. tauto.
      * pose proof (occurs_before_In _ _ _ Hocc) as [Hina Hinb].
        apply extras_In in Hina, Hinb.
        split; [tauto|]. split.
        -- intros p q Hp _. apply nth_error_In in Hp. tauto.
        -- intros _ _.
           exact (occurs_before_sorted _ _ _ _ (extras_sorted data) Hocc).
Qed.

(** ** Entry point *)

Lemma missing_spec (globs : globals) :
  missing globs
  = (if dict_mem "dan_courses_sp" globs then [] else ["dan_courses_sp"])
    +++ (if dict_mem "dan_courses_dp" globs then [] else ["dan_courses_dp"]).
Proof.
  unfold missing, required. simpl.
  destruct (dict_mem "dan_courses_sp" globs), (dict_mem "dan_courses_dp" globs);
    reflexivity.
Qed.

(** C6: when one of the two datasets is not bound, [main] stops with
    [SystemExit] on a message that lists the missing names, exactly
    those of the two that are not bound, and leaves the world as it was:
    the output file is not written. *)
Theorem main_missing_dataset (globs : globals) (w : world) :
  dict_mem "dan_courses_sp" globs = false
  \/ dict_mem "dan_courses_dp" globs = false ->
  let names :=
    (if dict_mem "dan_courses_sp" globs then [] else ["dan_courses_sp"])
    +++ (if dict_mem "dan_courses_dp" globs then [] else ["dan_courses_dp"]) in
  main globs w
  = (SystemExit
       ("Missing dictionaries: " ++ join ", " names ++ nl
        ++ "Paste your `dan_courses_sp` and `dan_courses_dp` above, "
        ++ "or import them before running this script."),
     w)
  /\ (forall name, In name names
                   <-> In name required /\ dict_mem name globs = false).
Proof.
  intros Hmiss names. split.
  - unfold main. rewrite missing_spec. fold names.
    destruct names as [|n names'] eqn:E; [|reflexivity].
    exfalso. subst names.
    destruct Hmiss as [H|H]; rewrite H in E;
      destruct (dict_mem "dan_courses_sp" globs); discriminate.
  - intros name. subst names. unfold required. simpl.
    destruct (dict_mem "dan_courses_sp" globs) eqn:Es,
             (dict_mem "dan_courses_dp" globs) eqn:Ed; simpl;
      intuition (subst; congruence).
Qed.

Lemma join_head (s x : string) (l : list string) :
  exists rest, join s (x :: l) = x ++ rest.
Proof.
  destruct l as [|y l].
  - exists "". simpl. now rewrite string_app_nil_r.
  - exists (s ++ join s (y :: l)). reflexivity.
Qed.

Lemma render_markdown_begins (datasets : list (string * rank_section)) :
  exists rest, render_markdown datasets = Ok (title_line ++ rest).
Proof.
  destruct (markdown_blocks_ok datasets) as (blocks & E & _).
  destruct (join_head nl title_line (List.concat blocks)) as [rest Hr].
  exists rest. unfold render_markdown. rewrite E. cbn [bind].
  unfold title_line in *. now rewrite Hr.
Qed.

Lemma file_write_preamble : file_write "" preamble = Some preamble.
Proof. reflexivity. Qed.

Lemma main_outcomes (globs : globals) (w : world) :
  (exists msg, main globs w = (SystemExit msg, w))
  \/ (exists k, main globs w = (RaisedKeyError k, w))
  \/ main globs w = (RaisedOSError, w)
  \/ main globs w
     = (RaisedUnicodeEncodeError, mkWorld (Some preamble) true (stdout w))
  \/ (exists rest,
         main globs w
         = (Returned,
            mkWorld (Some (preamble ++ "# Beatmania IIDX Dan Courses" ++ nl ++ rest))
                    true (stdout w +++ ["Wrote README.md"]))).
Proof.
  unfold main. destruct (missing globs) as [|n names]; [|left; eauto].
  right.
  destruct (dict_get "dan_courses_sp" globs) as [sp|k]; [|left; simpl; eauto].
  destruct (dict_get "dan_courses_dp" globs) as [dp|k]; [|left; simpl; eauto].
  cbn [bind].
  destruct (render_markdown_begins [("Singles Play", sp); ("Doubles Play", dp)])
    as [rest Hr].
  rewrite Hr. destruct (writable w); [|right; left; reflexivity].
  right. right. rewrite file_write_preamble. unfold file_write.
  destruct (encodable (title_line ++ rest)); [|left; reflexivity].
  right. exists rest. unfold title_line.
  now rewrite string_app_assoc.
Qed.

(** C7: every run of [main] that returns leaves an output file that
    begins with the preamble line followed at once by the title line
    [# Beatmania IIDX Dan Courses]; and for every pair of datasets the
    document that [main] renders begins with that title line. *)
Theorem main_output_begins_with_preamble_and_title (globs : globals) (w : world) :
  (forall w', main globs w = (Returned, w') ->
              exists rest,
                readme w'
                = Some (preamble ++ "# Beatmania IIDX Dan Courses" ++ nl ++ rest))
  /\ (forall sp dp,
         exists rest,
           render_markdown [("Singles Play", sp); ("Doubles Play", dp)]
           = Ok ("# Beatmania IIDX Dan Courses" ++ nl ++ rest)).
Proof.
  split.
  - intros w' Hrun.
    destruct (main_outcomes globs w)
      as [[msg E]|[[k E]|[E|[E|[rest E]]]]]; rewrite E in Hrun;
      try discriminate.
    injection Hrun as <-. exists rest. reflexivity.
  - intros sp dp.
    destruct (render_markdown_begins [("Singles Play", sp); ("Doubles Play", dp)])
      as [rest Hr].
    exists rest. rewrite Hr. unfold title_line.
    now rewrite string_app_assoc.
Qed.

(** ** Running the file as a script *)

Lemma load_module_binds (courses : option namespace) (globs : globals) :
  load_module courses = inr globs ->
  dict_mem "dan_courses_sp" globs = true
  /\ dict_mem "dan_courses_dp" globs = true.
Proof.
  unfold load_module, required. destruct courses as [m|]; [|discriminate].
  simpl. destruct (dict_lookup "dan_courses_sp" m) as [sp|]; [|discriminate].
  destruct (dict_lookup "dan_courses_dp" m) as [dp|]; [|discriminate].
  intros [= <-]. split; reflexivity.
Qed.

(** C9: when the top level of the file has run, both dataset names are
    bound in the globals, the list [missing] of [main] is empty and
    [main] does not stop with [SystemExit]; so no run of the script ends
    in the [SystemExit] of [main]. *)
Theorem script_datasets_always_bound (courses : option namespace) (w : world) :
  (forall globs,
      load_module courses = inr globs ->
      dict_mem "dan_courses_sp" globs = true
      /\ dict_mem "dan_courses_dp" globs = true
      /\ missing globs = []
      /\ forall msg, fst (main globs w) <> SystemExit msg)
  /\ (forall msg, fst (run_script courses w) <> Ran (SystemExit msg)).
Proof.
  assert (H : forall globs,
             load_module courses = inr globs ->
             dict_mem "dan_courses_sp" globs = true
             /\ dict_mem "dan_courses_dp" globs = true
             /\ missing globs = []
             /\ forall msg, fst (main globs w) <> SystemExit msg).
  { intros globs Hload.
    destruct (load_module_binds _ _ Hload) as [Hsp Hdp].
    assert (Hm : missing globs = [])
      by (rewrite missing_spec, Hsp, Hdp; reflexivity).
    repeat split; try assumption.
    intros msg. unfold main. rewrite Hm.
    destruct (_ <- dict_get "dan_courses_sp" globs ;; _) as [md|k];
      [|cbn [fst]; discriminate].
    destruct (writable w); [|cbn [fst]; discriminate].
    rewrite file_write_preamble. unfold file_write.
    destruct (encodable md); cbn [fst]; discriminate. }
  split; [exact H|].
  intros msg. unfold run_script.
  destruct (load_module courses) as [e|globs] eqn:E; simpl; [discriminate|].
  intros [= Hr]. exact (proj2 (proj2 (proj2 (H globs eq_refl))) msg Hr).
Qed.

(** ** The theorems at concrete inputs *)

Lemma order_games_chronology_witness :
  let keys := ["zeta"; "30 RESIDENT"; "alpha"; "8th style"] in
  In "zeta" (order_games keys)
  /\ nth_error (order_games keys) 0 = Some "8th style"
  /\ nth_error (order_games keys) 1 = Some "30 RESIDENT"
  /\ (forall p q, nth_error GAME_ORDER p = Some "8th style" ->
                  nth_error GAME_ORDER q = Some "30 RESIDENT" ->
                  (p <= q)%nat /\ ("8th style" <> "30 RESIDENT" -> (p < q)%nat))
  /\ (In "30 RESIDENT" GAME_ORDER -> In "8th style" GAME_ORDER)
  /\ (~ In "8th style" GAME_ORDER -> ~ In "30 RESIDENT" GAME_ORDER ->
      String.leb "8th style" "30 RESIDENT" = true).
Proof.
  intros keys.
  destruct (order_games_chronology keys) as (_ & Hin & Hord).
  split; [apply Hin; now left|].
  split; [reflexivity|]. split; [reflexivity|].
  apply (Hord 0%nat 1%nat); [lia|reflexivity|reflexivity].
Defined.

Lemma max_stage_len_is_maximum_witness :
  first_dan_example <> []
  /\ exists stages,
      In stages (dict_values first_dan_example)
      /\ max_stage_len first_dan_example = len stages.
Proof.
  split; [discriminate|].
  destruct (max_stage_len_is_maximum first_dan_example) as (_ & H & _).
  apply H. discriminate.
Defined.

Lemma render_table_for_dan_rows_witness :
  first_dan_example <> []
  /\ exists lines,
      render_table_for_dan "1st Dan" first_dan_example
      = Ok (join nl ([ "### " ++ "1st Dan" ++ nl;
                       table_line (header (max_stage_len first_dan_example));
                       table_line (sep (max_stage_len first_dan_example)) ]
                     +++ lines +++ [""]))
      /\ List.length lines = List.length (dict_keys first_dan_example).
Proof.
  split; [discriminate|].
  destruct (proj1 render_table_for_dan_rows "1st Dan" first_dan_example)
    as (lines & E & L & _); [discriminate|].
  exists lines. split; [exact E|exact L].
Defined.

Lemma cell_pipes_are_escaped_witness :
  pipe_example <> []
  /\ exists rows,
      render_table_for_dan "Kaiden" pipe_example
      = Ok (join nl ([ "### " ++ "Kaiden" ++ nl;
                       table_line (header (max_stage_len pipe_example));
                       table_line (sep (max_stage_len pipe_example)) ]
                     +++ map (fun r => table_line (map escape_cell r)) rows
                     +++ [""]))
      /\ Forall (fun r =>
                   Forall (fun cell =>
                             bare_pipes (escape_cell cell) = 0%nat
                             /\ unescape (escape_cell cell) = cell) r
                   /\ split_bare (table_line (map escape_cell r))
                      = [""] +++ map (fun cell => padded (escape_cell cell)) r
                        +++ [""]
                   /\ bare_pipes (table_line (map escape_cell r))
                      = S (List.length r))
                rows.
Proof.
  split; [discriminate|].
  destruct (cell_pipes_are_escaped "Kaiden" pipe_example)
    as (rows & E & _ & H & _); [discriminate|].
  exists rows. split; [exact E|exact H].
Defined.

Lemma table_lines_cell_count_witness :
  pipe_example <> []
  /\ exists rows,
      Forall (fun cells => len cells = max_stage_len pipe_example + 1)
             (header (max_stage_len pipe_example)
              :: sep (max_stage_len pipe_example)
              :: map (map escape_cell) rows)
      /\ Forall (fun line =>
                   Z.of_nat (bare_pipes line) = max_stage_len pipe_example + 2)
                (table_line (header (max_stage_len pipe_example))
                 :: table_line (sep (max_stage_len pipe_example))
                 :: map (fun r => table_line (map escape_cell r)) rows).
Proof.
  split; [discriminate|].
  destruct (table_lines_cell_count "Kaiden" pipe_example)
    as (rows & _ & _ & H1 & H2); [discriminate|].
  exists rows. split; [exact H1|exact H2].
Defined.

Lemma render_markdown_rank_order_witness :
  nth_error (known mixed_ranks +++ extras mixed_ranks) 1 = Some "Kaiden"
  /\ nth_error (known mixed_ranks +++ extras mixed_ranks) 3 = Some "zeta"
  /\ (In "zeta" DAN_ORDER -> In "Kaiden" DAN_ORDER)
  /\ (forall p q, nth_error DAN_ORDER p = Some "Kaiden" ->
                  nth_error DAN_ORDER q = Some "zeta" -> (p < q)%nat)
  /\ (~ In "Kaiden" DAN_ORDER -> ~ In "zeta" DAN_ORDER ->
      String.leb "Kaiden" "zeta" = true).
Proof.
  split; [reflexivity|]. split; [reflexivity|].
  destruct (proj2 render_markdown_rank_order "Singles Play" mixed_ranks)
    as (_ & _ & _ & H).
  apply (H 1%nat 3%nat); [lia|reflexivity|reflexivity].
Defined.

Lemma main_missing_dataset_witness :
  dict_mem "dan_courses_sp" doubles_only_globals = false
  /\ main doubles_only_globals fresh_world
     = (SystemExit
          ("Missing dictionaries: " ++ join ", " ["dan_courses_sp"] ++ nl
           ++ "Paste your `dan_courses_sp` and `dan_courses_dp` above, "
           ++ "or import them before running this script."),
        fresh_world).
Proof.
  split; [reflexivity|].
  apply (main_missing_dataset doubles_only_globals fresh_world).
  left. reflexivity.
Defined.

Lemma main_output_begins_with_preamble_and_title_witness :
  let w' := snd (main both_globals fresh_world) in
  main both_globals fresh_world = (Returned, w')
  /\ exists rest,
      readme w'
      = Some (preamble ++ "# Beatmania IIDX Dan Courses" ++ nl ++ rest).
Proof.
  intros w'.
  assert (H : main both_globals fresh_world = (Returned, w')) by reflexivity.
  split; [exact H|].
  apply (proj1 (main_output_begins_with_preamble_and_title
                  both_globals fresh_world) w' H).
Defined.

Lemma script_datasets_always_bound_witness :
  load_module (Some both_globals) = inr both_globals
  /\ missing both_globals = []
  /\ forall msg, fst (main both_globals fresh_world) <> SystemExit msg.
Proof.
  split; [reflexivity|].
  destruct (proj1 (script_datasets_always_bound (Some both_globals) fresh_world)
                  both_globals eq_refl) as (_ & _ & Hm & Hx).
  split; [exact Hm|exact Hx].
Defined.

Lemma order_games_permutation_witness :
  NoDup (dict_keys first_dan_example)
  /\ NoDup (order_games (dict_keys first_dan_example)).
Proof.
  assert (H : NoDup (dict_keys first_dan_example)).
  { apply (NoDup_count_occ' string_dec). intros x Hx. simpl in Hx.
    repeat (destruct Hx as [<-|Hx]; [reflexivity|]). contradiction. }
  split; [exact H|].
  apply (order_games_permutation (dict_keys first_dan_example)). exact H.
Defined.

(** * Further properties *)

(** ** Row sorter: dependence on the input and shape of the output *)

Lemma order_games_sorted (keys : list string) :
  StronglySorted (key_le tuple_ltb (game_key (index_of GAME_ORDER)))
                 (order_games keys).
Proof. apply sorted_sorted; [apply tuple_ltb_asym|apply tuple_ltb_negtrans]. Qed.

Lemma order_games_of_perm (l l' : list string) :
  Permutation l l' -> order_games l = order_games l'.
Proof.
  intros P. symmetry. apply order_games_unique.
  - rewrite P. apply order_games_perm.
  - apply order_games_sorted.
Qed.

(** X1: the output of [order_games] depends on which names are given and
    how often, not on the order they are given in. *)
Theorem order_games_ignores_input_order (l l' : list string) :
  Permutation l l' -> order_games l = order_games l'.
Proof. apply order_games_of_perm. Qed.

(** X2: sorting twice is sorting once, and [order_games] returns a list
    unchanged exactly when the list is already in key order. *)
Theorem order_games_idempotent (keys : list string) :
  order_games (order_games keys) = order_games keys
  /\ (order_games keys = keys
      <-> StronglySorted (key_le tuple_ltb (game_key (index_of GAME_ORDER))) keys).
Proof.
  split.
  - apply order_games_of_perm. symmetry. apply order_games_perm.
  - split.
    + intros E. rewrite <- E. apply order_games_sorted.
    + intros S. symmetry. now apply order_games_unique.
Qed.

Lemma StronglySorted_filter {A : Type} (R : A -> A -> Prop) (f : A -> bool) (l : list A) :
  StronglySorted R l -> StronglySorted R (filter f l).
Proof.
  induction 1 as [|a l _ IH Hall]; simpl; [constructor|].
  destruct (f a); [|exact IH].
  constructor; [exact IH|].
  rewrite Forall_forall in *. intros x Hx. apply Hall.
  apply filter_In in Hx. tauto.
Qed.

Lemma StronglySorted_app_intro {A : Type} (R : A -> A -> Prop) (l m : list A) :
  StronglySorted R l -> StronglySorted R m ->
  (forall a b, In a l -> In b m -> R a b) ->
  StronglySorted R (l +++ m).
Proof.
  induction 1 as [|a l _ IH Hall]; intros Hm Hcross; simpl; [exact Hm|].
  constructor.
  - apply IH; [exact Hm|]. intros x y Hx Hy. apply Hcross; [now right|exact Hy].
  - apply Forall_app. split; [exact Hall|].
    apply Forall_forall. intros y Hy. apply Hcross; [now left|exact Hy].
Qed.

Lemma StronglySorted_impl_In {A : Type} (R R' : A -> A -> Prop) (l : list A) :
  (forall a b, In a l -> In b l -> R a b -> R' a b) ->
  StronglySorted R l -> StronglySorted R' l.
Proof.
  intros HR S. induction S as [|a l _ IH Hall]; constructor.
  - apply IH. intros x y Hx Hy. apply HR; now right.
  - rewrite Forall_forall in *. intros y Hy.
    apply HR; [now left|now right|auto].
Qed.

Lemma StronglySorted_occurs_before {A : Type} (pre l : list A) :
  StronglySorted (occurs_before (pre +++ l)) l.
Proof.
  revert pre. induction l as [|a l IH]; intros pre; constructor.
  - specialize (IH (pre +++ [a])). now rewrite <- app_assoc in IH.
  - apply Forall_forall. intros y Hy.
    apply in_split in Hy. destruct Hy as (u & v & ->).
    now exists pre, u, v.
Qed.

Lemma GAME_ORDER_sorted :
  StronglySorted (key_le tuple_ltb (game_key (index_of GAME_ORDER))) GAME_ORDER.
Proof.
  apply (StronglySorted_impl_In (occurs_before GAME_ORDER));
    [|apply (StronglySorted_occurs_before [] GAME_ORDER)].
  intros a b Ha Hb Hocc. unfold key_le.
  apply In_nth_error in Ha, Hb. destruct Ha as [p Hp], Hb as [q Hq].
  pose proof (occurs_before_positions _ _ _ _ _ GAME_ORDER_NoDup Hocc Hp Hq) as Hlt.
  rewrite (proj1 (game_key_present _ _ Hp)), (proj1 (game_key_present _ _ Hq)).
  unfold tuple_ltb. cbn [fst snd].
  destruct (Z.eqb_spec (Z.of_nat q) (Z.of_nat p)); [lia|].
  apply Z.ltb_ge. lia.
Qed.

Lemma NoDup_filter_mem_perm (l table : list string) :
  NoDup l -> NoDup table ->
  Permutation l (filter (fun g => list_mem g l) table
                 +++ filter (fun g => negb (list_mem g table)) l).
Proof.
  intros Hl Ht. apply NoDup_Permutation; [exact Hl| |].
  - apply NoDup_app.
    + now apply NoDup_filter.
    + now apply NoDup_filter.
    + intros g H1 H2. apply filter_In in H1, H2.
      destruct H1 as [H1 _], H2 as [_ H2].
      apply list_mem_In in H1. rewrite H1 in H2. discriminate.
  - intros g. rewrite in_app_iff, !filter_In, negb_true_iff.
    rewrite <- (list_mem_In g table), <- !(list_mem_In g l).
    destruct (list_mem g table), (list_mem g l); intuition congruence.
Qed.

(** X3: for names without repetition, [order_games] gives the names of
    [GAME_ORDER] that were given, as they stand in [GAME_ORDER], followed
    by the other names in sorted order: the same layout as the ranks
    [known + extras] of [render_markdown]. *)
Theorem order_games_table_then_sorted (keys : list string) :
  NoDup keys ->
  order_games keys
  = filter (fun g => list_mem g keys) GAME_ORDER
    +++ sorted_str (filter (fun g => negb (list_mem g GAME_ORDER)) keys).
Proof.
  intros Hnd. symmetry. apply order_games_unique.
  - rewrite <- (sorted_perm String.ltb (fun s => s)).
    apply NoDup_filter_mem_perm; [exact Hnd|apply GAME_ORDER_NoDup].
  - apply StronglySorted_app_intro.
    + apply StronglySorted_filter, GAME_ORDER_sorted.
    + eapply StronglySorted_impl_In;
        [|apply (sorted_sorted String.ltb (fun s => s)
                   string_ltb_asym string_ltb_negtrans)].
      intros a b Ha Hb Hab. unfold key_le in *.
      apply sorted_str_In, filter_In in Ha, Hb.
      destruct Ha as [_ Ha], Hb as [_ Hb].
      apply negb_true_iff in Ha, Hb.
      assert (Ha' : ~ In a GAME_ORDER)
        by (rewrite <- list_mem_In; congruence).
      assert (Hb' : ~ In b GAME_ORDER)
        by (rewrite <- list_mem_In; congruence).
      rewrite (game_key_absent _ Ha'), (game_key_absent _ Hb').
      unfold tuple_ltb. cbn [fst snd]. exact Hab.
    + intros a b Ha Hb. unfold key_le.
      apply filter_In in Ha. destruct Ha as [Ha _].
      apply sorted_str_In, filter_In in Hb. destruct Hb as [_ Hb].
      apply negb_true_iff in Hb.
      assert (Hb' : ~ In b GAME_ORDER)
        by (rewrite <- list_mem_In; congruence).
      apply In_nth_error in Ha. destruct Ha as [p Hp].
      destruct (game_key_present _ _ Hp) as [Ka Hlt].
      rewrite Ka, (game_key_absent _ Hb'). unfold tuple_ltb. cbn [fst snd].
      destruct (Z.eqb_spec 10000 (Z.of_nat p)); [lia|].
      apply Z.ltb_ge. lia.
Qed.

(** X4: the dict built by [order_games] sends each name of a table
    without repetition to its position and holds no other name; for
    [GAME_ORDER] every position is below the default 10000 that the other
    names get, so the first component of the sort key tells the names of
    the table from the others. *)
Theorem index_of_gives_positions :
  (forall table : list string,
      NoDup table ->
      (forall p k, nth_error table p = Some k ->
                   dict_lookup k (index_of table) = Some (Z.of_nat p))
      /\ (forall k, ~ In k table -> dict_lookup k (index_of table) = None))
  /\ (forall k, In k GAME_ORDER
                <-> fst (game_key (index_of GAME_ORDER) k) < 27)
  /\ (forall k, ~ In k GAME_ORDER
                <-> fst (game_key (index_of GAME_ORDER) k) = 10000).
Proof.
  split; [|split].
  - intros table Hnd. split.
    + intros p k Hp.
      exact (index_from_present k table 0 p [] Hnd Hp).
    + intros k Hk. exact (index_from_absent k table 0 [] Hk).
  - intros k. destruct (in_dec string_dec k GAME_ORDER) as [H|H].
    + split; [|tauto]. intros _.
      apply In_nth_error in H. destruct H as [p Hp].
      destruct (game_key_present _ _ Hp) as [-> Hlt]. cbn [fst]. lia.
    + rewrite (game_key_absent _ H). cbn [fst].
      split; [intros Hin; contradiction|lia].
  - intros k. destruct (in_dec string_dec k GAME_ORDER) as [H|H].
    + apply In_nth_error in H. destruct H as [p Hp].
      destruct (game_key_present _ _ Hp) as [-> Hlt]. cbn [fst].
      apply nth_error_In in Hp. split; [intros Hn; contradiction|lia].
    + rewrite (game_key_absent _ H). cbn [fst].
      split; [reflexivity|intros _; exact H].
Qed.

(** ** Column count and table: dependence on the section *)

Lemma fold_max_from (l : list (list string)) (m0 : Z) :
  0 <= m0 ->
  fold_left (fun m stages => Z.max m (len stages)) l m0
  = Z.max m0 (fold_left (fun m stages => Z.max m (len stages)) l 0).
Proof.
  revert m0. induction l as [|s l IH]; intros m0 H0; cbn [fold_left].
  - lia.
  - pose proof (len_nonneg s) as Hs.
    rewrite (IH (Z.max m0 (len s))), (IH (Z.max 0 (len s))) by lia. lia.
Qed.

Lemma max_stage_len_app (s1 s2 : game_section) :
  max_stage_len (s1 +++ s2) = Z.max (max_stage_len s1) (max_stage_len s2).
Proof.
  pose proof (max_stage_len_nonneg s1) as H1.
  unfold max_stage_len, dict_values in *. rewrite map_app, fold_left_app.
  now apply fold_max_from.
Qed.

Lemma max_stage_len_cons (game : string) (stages : list string) (section : game_section) :
  max_stage_len ((game, stages) :: section)
  = Z.max (len stages) (max_stage_len section).
Proof.
  change ((game, stages) :: section) with ([(game, stages)] +++ section).
  rewrite max_stage_len_app. unfold max_stage_len at 1.
  cbn [dict_values map snd fold_left].
  pose proof (len_nonneg stages). lia.
Qed.

Lemma max_stage_len_perm (s s' : game_section) :
  Permutation s s' -> max_stage_len s = max_stage_len s'.
Proof.
  induction 1 as [|[g st] l l' _ IH|[g1 st1] [g2 st2] l|l1 l2 l3 _ IH1 _ IH2].
  - reflexivity.
  - rewrite !max_stage_len_cons. lia.
  - rewrite !max_stage_len_cons. lia.
  - congruence.
Qed.

(** X5: the column count of two sections put together is the larger of
    their column counts; so an entry added to a section never lowers the
    count, and the count does not depend on the order of the entries. *)
Theorem max_stage_len_of_union :
  (forall s1 s2, max_stage_len (s1 +++ s2)
                 = Z.max (max_stage_len s1) (max_stage_len s2))
  /\ (forall game stages section,
         max_stage_len ((game, stages) :: section)
         = Z.max (len stages) (max_stage_len section))
  /\ (forall s s', Permutation s s' -> max_stage_len s = max_stage_len s').
Proof.
  split; [exact max_stage_len_app|].
  split; [exact max_stage_len_cons|exact max_stage_len_perm].
Qed.

Lemma dict_wf_perm {V : Type} (d d' : dict V) :
  Permutation d d' -> dict_wf d -> dict_wf d'.
Proof.
  intros P. unfold dict_wf, dict_keys.
  apply Permutation_NoDup. now apply Permutation_map.
Qed.

Lemma dict_lookup_perm {V : Type} (d d' : dict V) (k : string) :
  dict_wf d -> Permutation d d' -> dict_lookup k d = dict_lookup k d'.
Proof.
  intros Hwf P.
  pose proof (dict_wf_perm _ _ P Hwf) as Hwf'.
  destruct (dict_lookup k d) as [v|] eqn:E.
  - symmetry. apply dict_lookup_wf; [exact Hwf'|].
    eapply Permutation_in; [exact P|]. now apply dict_lookup_In.
  - destruct (dict_lookup k d') as [v'|] eqn:E'; [|reflexivity].
    apply dict_lookup_In in E'.
    assert (Hin : In (k, v') d)
      by (eapply Permutation_in; [symmetry; exact P|exact E']).
    rewrite (dict_lookup_wf _ _ _ Hwf Hin) in E. discriminate.
Qed.

Lemma mapM_ext_in {A B : Type} (f g : A -> res B) (l : list A) :
  (forall x, In x l -> f x = g x) -> mapM f l = mapM g l.
Proof.
  induction l as [|x l IH]; intros H; simpl; [reflexivity|].
  rewrite (H x) by now left. rewrite IH; [reflexivity|].
  intros y Hy. apply H. now right.
Qed.

Lemma render_table_for_dan_perm (dan_name : string) (s s' : game_section) :
  dict_wf s -> Permutation s s' ->
  render_table_for_dan dan_name s = render_table_for_dan dan_name s'.
Proof.
  intros Hwf P.
  assert (Hl : table_lines dan_name s = table_lines dan_name s').
  { unfold table_lines.
    rewrite (max_stage_len_perm _ _ P).
    rewrite (order_games_of_perm (dict_keys s) (dict_keys s'))
      by (unfold dict_keys; now apply Permutation_map).
    rewrite (mapM_ext_in (game_line s (max_stage_len s'))
                         (game_line s' (max_stage_len s'))); [reflexivity|].
    intros g _. unfold game_line, dict_get.
    now rewrite (dict_lookup_perm s s' g Hwf P). }
  destruct s as [|e s].
  - apply Permutation_nil in P. now subst.
  - destruct s' as [|e' s'].
    + apply Permutation_sym, Permutation_nil in P. discriminate.
    + unfold render_table_for_dan. now rewrite Hl.
Qed.

(** X6: the table of a section does not depend on the order in which the
    games were put into the section. *)
Theorem render_table_for_dan_ignores_insertion_order
        (dan_name : string) (s s' : game_section) :
  dict_wf s -> Permutation s s' ->
  render_table_for_dan dan_name s = render_table_for_dan dan_name s'.
Proof. apply render_table_for_dan_perm. Qed.

Lemma join_snoc (s x : string) (l : list string) :
  l <> [] -> join s (l +++ [x]) = join s l ++ s ++ x.
Proof.
  unfold join. induction l as [|y l IH]; intros Hne; [contradiction|].
  destruct l as [|z l].
  - reflexivity.
  - change (String.concat s ((y :: z :: l) +++ [x]))
      with (y ++ s ++ String.concat s ((z :: l) +++ [x])).
    rewrite IH by discriminate.
    change (String.concat s (y :: z :: l))
      with (y ++ s ++ String.concat s (z :: l)).
    now rewrite !string_app_assoc.
Qed.

Lemma table_line_ends (cells : list string) :
  exists body, table_line cells = "|" ++ body ++ " |".
Proof.
  exists (" " ++ join " | " cells). reflexivity.
Qed.

Lemma join_table_lines_end (l : list string) :
  l <> [] ->
  Forall (fun x => exists body, x = "|" ++ body ++ " |") l ->
  exists pre, join nl l = pre ++ " |".
Proof.
  intros Hne Hall.
  destruct (exists_last Hne) as (l0 & x & ->).
  apply Forall_app in Hall. destruct Hall as [_ Hx].
  apply Forall_inv in Hx. destruct Hx as [body ->].
  destruct l0 as [|y l0].
  - exists ("|" ++ body). cbn [app join String.concat].
    now rewrite string_app_assoc.
  - rewrite join_snoc by discriminate.
    exists (join nl (y :: l0) ++ nl ++ "|" ++ body).
    now rewrite !string_app_assoc.
Qed.

(** X7: [render_table_for_dan] never raises, whatever the section: the
    subscript [section[game]] always finds its key.  It gives the empty
    text exactly for the empty section; otherwise the text begins with the
    heading of the rank, an empty line and the header row, and ends with
    the end of a table row and a line feed. *)
Theorem render_table_for_dan_shape (dan_name : string) (section : game_section) :
  exists text,
    render_table_for_dan dan_name section = Ok text
    /\ (text = "" <-> section = [])
    /\ (section <> [] ->
        (exists rest,
            text = "### " ++ dan_name ++ nl ++ nl ++ "| Game" ++ rest)
        /\ (exists pre, text = pre ++ " |" ++ nl)).
Proof.
  destruct section as [|e section].
  - exists "". split; [reflexivity|]. split; [tauto|]. intros H. contradiction.
  - destruct (render_table_for_dan_lines dan_name (e :: section))
      as (rows & E & _); [discriminate|].
    set (cols := max_stage_len (e :: section)) in *.
    set (lines := map (fun r => table_line (map escape_cell r)) rows) in *.
    eexists. split; [exact E|].
    assert (Hpre : exists rest,
               join nl ([ "### " ++ dan_name ++ nl; table_line (header cols);
                          table_line (sep cols) ] +++ lines +++ [""])
               = "### " ++ dan_name ++ nl ++ nl ++ "| Game" ++ rest).
    { destruct (join_head nl (table_line (header cols))
                          (table_line (sep cols) :: lines +++ [""])) as [r1 Hr1].
      destruct (join_head " | " "Game"
                          (map (fun i => "Stage " ++ str i) (range 1 (cols + 1))))
        as [r2 Hr2].
      exists (r2 ++ " |" ++ r1).
      change (join nl ([ "### " ++ dan_name ++ nl; table_line (header cols);
                         table_line (sep cols) ] +++ lines +++ [""]))
        with (("### " ++ dan_name ++ nl) ++ nl
              ++ join nl (table_line (header cols)
                          :: table_line (sep cols) :: lines +++ [""])).
      rewrite Hr1. unfold table_line, header.
      change (["Game"] +++ map (fun i => "Stage " ++ str i) (range 1 (cols + 1)))
        with ("Game" :: map (fun i => "Stage " ++ str i) (range 1 (cols + 1))).
      rewrite Hr2. rewrite !string_app_assoc. reflexivity. }
    split; [|intros _; split; [exact Hpre|]].
    + split; [|discriminate].
      destruct Hpre as [rest ->]. discriminate.
    + change ([ "### " ++ dan_name ++ nl; table_line (header cols);
                table_line (sep cols) ] +++ lines +++ [""])
        with (("### " ++ dan_name ++ nl)
              :: (table_line (header cols) :: table_line (sep cols) :: lines)
                   +++ [""]).
      destruct (join_table_lines_end
                  (table_line (header cols) :: table_line (sep cols) :: lines))
        as [pre Hp]; [discriminate| |].
      * constructor; [apply table_line_ends|].
        constructor; [apply table_line_ends|].
        apply Forall_map, Forall_forall. intros r _. apply table_line_ends.
      * exists (("### " ++ dan_name ++ nl) ++ nl ++ pre).
        change (join nl (("### " ++ dan_name ++ nl)
                         :: (table_line (header cols) :: table_line (sep cols) :: lines)
                              +++ [""]))
          with (("### " ++ dan_name ++ nl) ++ nl
                ++ join nl ((table_line (header cols) :: table_line (sep cols) :: lines)
                            +++ [""])).
        rewrite join_snoc by discriminate. rewrite Hp.
        rewrite !string_app_assoc. reflexivity.
Qed.

(** ** Escaping *)

Lemma escape_cell_app (a b : string) :
  escape_cell (a ++ b) = escape_cell a ++ escape_cell b.
Proof.
  induction a as [|c a IH]; [reflexivity|].
  change (String c a ++ b) with (String c (a ++ b)).
  rewrite !escape_cell_cons, IH. now destruct (Ascii.eqb c pipe).
Qed.

Lemma escape_cell_inj (a b : string) : escape_cell a = escape_cell b -> a = b.
Proof.
  intros E. rewrite <- (unescape_escape_cell a), <- (unescape_escape_cell b).
  now rewrite E.
Qed.

Lemma escape_cell_length (s : string) :
  String.length (escape_cell s) = (String.length s + count_pipes s)%nat.
Proof.
  induction s as [|c s IH]; [reflexivity|].
  rewrite escape_cell_cons. cbn [count_pipes].
  destruct (Ascii.eqb c pipe); cbn [String.length]; rewrite IH; lia.
Qed.

Lemma escape_cell_count (s : string) :
  count_pipes (escape_cell s) = count_pipes s.
Proof.
  induction s as [|c s IH]; [reflexivity|].
  rewrite escape_cell_cons. cbn [count_pipes].
  destruct (Ascii.eqb c pipe) eqn:E; cbn [count_pipes]; rewrite ?E, IH.
  - change (Ascii.eqb backslash pipe) with false.
    change (Ascii.eqb pipe pipe) with true. reflexivity.
  - reflexivity.
Qed.

(** X8: escaping works character by character, so the escape of a
    concatenation is the concatenation of the escapes; it keeps the
    pipes and adds one character per pipe; it changes a text exactly when
    the text holds a pipe, so escaping twice is not escaping once; and it
    never makes two texts equal. *)
Theorem escape_cell_facts :
  (forall a b, escape_cell (a ++ b) = escape_cell a ++ escape_cell b)
  /\ (forall s, String.length (escape_cell s)
                = (String.length s + count_pipes s)%nat)
  /\ (forall s, count_pipes (escape_cell s) = count_pipes s)
  /\ (forall s, escape_cell s = s <-> count_pipes s = 0%nat)
  /\ (forall s, escape_cell (escape_cell s) = escape_cell s
                <-> count_pipes s = 0%nat)
  /\ (forall a b, escape_cell a = escape_cell b -> a = b).
Proof.
  assert (Hfix : forall s, escape_cell s = s <-> count_pipes s = 0%nat).
  { intros s. split.
    - intros E. pose proof (escape_cell_length s) as L. rewrite E in L. lia.
    - intros H. apply escape_cell_no_pipe.
      induction s as [|c s IH]; [reflexivity|].
      cbn [count_pipes] in H. cbn [no_pipe].
      destruct (Ascii.eqb c pipe); [discriminate|]. simpl in *. auto. }
  split; [exact escape_cell_app|]. split; [exact escape_cell_length|].
  split; [exact escape_cell_count|]. split; [exact Hfix|].
  split; [|exact escape_cell_inj].
  intros s. rewrite <- (escape_cell_count s). apply Hfix.
Qed.

Lemma padded_inj (a b : string) : padded a = padded b -> a = b.
Proof.
  unfold padded. intros E. injection E as E. revert b E.
  induction a as [|c a IH]; intros [|d b] E.
  - reflexivity.
  - simpl in E. injection E as _ E. destruct b; discriminate.
  - simpl in E. injection E as _ E. destruct a; discriminate.
  - simpl in E. injection E as -> E. f_equal. apply IH. exact E.
Qed.

Lemma map_inj {A B : Type} (f : A -> B) (l l' : list A) :
  (forall a b, f a = f b -> a = b) -> map f l = map f l' -> l = l'.
Proof.
  intros Hf. revert l'. induction l as [|x l IH]; intros [|y l'] E;
    try discriminate; [reflexivity|].
  simpl in E. injection E as E1 E2. f_equal; auto.
Qed.

(** X9: the line of a row tells the row: two rows with at least one cell
    each that are written as the same line are the same row, whatever
    pipes, backslashes and spaces their cells hold. *)
Theorem table_line_tells_the_row (r r' : list string) :
  r <> [] -> r' <> [] ->
  table_line (map escape_cell r) = table_line (map escape_cell r') ->
  r = r'.
Proof.
  intros Hr Hr' E.
  assert (Hs : split_bare (table_line (map escape_cell r))
               = split_bare (table_line (map escape_cell r')))
    by now rewrite E.
  rewrite !split_bare_table_line in Hs;
    try apply escaped_no_bare;
    try (destruct r; [contradiction|discriminate]);
    try (destruct r'; [contradiction|discriminate]).
  apply app_inv_head, app_inv_tail in Hs.
  apply (map_inj padded) in Hs; [|exact padded_inj].
  apply (map_inj escape_cell) in Hs; [exact Hs|exact escape_cell_inj].
Qed.

(** ** Document renderer: dependence on the datasets *)

Lemma Permutation_filter_same {A : Type} (f : A -> bool) (l l' : list A) :
  Permutation l l' -> Permutation (filter f l) (filter f l').
Proof.
  induction 1 as [|x l l' _ IH|x y l|l1 l2 l3 _ IH1 _ IH2]; simpl.
  - constructor.
  - destruct (f x); [now constructor|exact IH].
  - destruct (f x), (f y); try reflexivity. apply perm_swap.
  - now transitivity (filter f l2).
Qed.

Lemma sorted_str_of_perm (l l' : list string) :
  Permutation l l' -> sorted_str l = sorted_str l'.
Proof.
  intros P. symmetry. apply sorted_str_unique.
  - rewrite P. apply (sorted_perm String.ltb (fun s => s)).
  - apply sorted_sorted; [apply string_ltb_asym|apply string_ltb_negtrans].
Qed.

Lemma render_dataset_perm (title : string) (data data' : rank_section) :
  dict_wf data -> Permutation data data' ->
  render_dataset title data = render_dataset title data'.
Proof.
  intros Hwf P.
  assert (Hk : known data = known data').
  { unfold known. apply filter_ext. intros d. unfold dict_mem.
    now rewrite (dict_lookup_perm data data' d Hwf P). }
  assert (He : extras data = extras data').
  { unfold extras. apply sorted_str_of_perm, Permutation_filter_same.
    unfold dict_keys. now apply Permutation_map. }
  unfold render_dataset. rewrite Hk, He.
  rewrite (mapM_ext_in
             (fun dan_name => section <- dict_get dan_name data ;;
                              render_table_for_dan dan_name section)
             (fun dan_name => section <- dict_get dan_name data' ;;
                              render_table_for_dan dan_name section));
    [reflexivity|].
  intros d _. unfold dict_get. now rewrite (dict_lookup_perm data data' d Hwf P).
Qed.

(** X10: the document does not depend on the order in which the ranks
    were put into each dataset: datasets with the same titles and, up to
    order, the same ranks give the same text. *)
Theorem render_markdown_ignores_insertion_order
        (datasets datasets' : list (string * rank_section)) :
  Forall2 same_ranks datasets datasets' ->
  render_markdown datasets = render_markdown datasets'.
Proof.
  intros HF. unfold render_markdown, markdown_blocks.
  assert (E : mapM (fun p => render_dataset (fst p) (snd p)) datasets
              = mapM (fun p => render_dataset (fst p) (snd p)) datasets').
  { induction HF as [|p p' ds ds' (Ht & Hwf & P) _ IH]; [reflexivity|].
    cbn [mapM]. rewrite IH, Ht.
    now rewrite (render_dataset_perm (fst p') (snd p) (snd p') Hwf P). }
  now rewrite E.
Qed.

(** ** Entry point: outcomes and effects *)

Lemma render_markdown_ok (datasets : list (string * rank_section)) :
  exists md, render_markdown datasets = Ok md.
Proof.
  destruct (render_markdown_begins datasets) as [rest E]. eauto.
Qed.

Lemma missing_nil (globs : globals) :
  missing globs = []
  <-> dict_mem "dan_courses_sp" globs = true
      /\ dict_mem "dan_courses_dp" globs = true.
Proof.
  rewrite missing_spec.
  destruct (dict_mem "dan_courses_sp" globs), (dict_mem "dan_courses_dp" globs);
    simpl; split; intros H; try discriminate; try tauto;
    destruct H; discriminate.
Qed.

Lemma main_bound (globs : globals) (w : world) :
  dict_mem "dan_courses_sp" globs = true ->
  dict_mem "dan_courses_dp" globs = true ->
  exists sp dp md,
    dict_lookup "dan_courses_sp" globs = Some sp
    /\ dict_lookup "dan_courses_dp" globs = Some dp
    /\ render_markdown [("Singles Play", sp); ("Doubles Play", dp)] = Ok md
    /\ main globs w
       = if writable w
         then if encodable md
              then (Returned,
                    mkWorld (Some (preamble ++ md)) true
                            (stdout w +++ ["Wrote README.md"]))
              else (RaisedUnicodeEncodeError,
                    mkWorld (Some preamble) true (stdout w))
         else (RaisedOSError, w).
Proof.
  intros Hsp Hdp.
  assert (Hm : missing globs = []) by now apply missing_nil.
  unfold dict_mem in Hsp, Hdp.
  destruct (dict_lookup "dan_courses_sp" globs) as [sp|] eqn:Es; [|discriminate].
  destruct (dict_lookup "dan_courses_dp" globs) as [dp|] eqn:Ed; [|discriminate].
  destruct (render_markdown_ok [("Singles Play", sp); ("Doubles Play", dp)])
    as [md Hmd].
  exists sp, dp, md. repeat split; try reflexivity; try exact Hmd.
  unfold main. rewrite Hm. unfold dict_get. rewrite Es, Ed. cbn [bind].
  rewrite Hmd, file_write_preamble. unfold file_write.
  destruct (writable w), (encodable md); reflexivity.
Qed.

Lemma main_unbound (globs : globals) (w : world) :
  dict_mem "dan_courses_sp" globs = false
  \/ dict_mem "dan_courses_dp" globs = false ->
  main globs w = (SystemExit (missing_message (missing globs)), w).
Proof.
  intros H. unfold main.
  destruct (missing globs) as [|n names] eqn:E; [|reflexivity].
  apply missing_nil in E. destruct E as [E1 E2], H as [H|H]; congruence.
Qed.

(** X11: no subscript of the program can fail: [render_markdown] returns
    a text for all datasets, and [main] never ends in [KeyError], whatever
    the globals and the world. *)
Theorem no_key_error :
  (forall datasets, exists md, render_markdown datasets = Ok md)
  /\ (forall globs w k, fst (main globs w) <> RaisedKeyError k).
Proof.
  split; [exact render_markdown_ok|].
  intros globs w k.
  destruct (dict_mem "dan_courses_sp" globs) eqn:Hsp;
    [destruct (dict_mem "dan_courses_dp" globs) eqn:Hdp|].
  - destruct (main_bound globs w Hsp Hdp) as (sp & dp & md & _ & _ & _ & ->).
    destruct (writable w), (encodable md); discriminate.
  - rewrite (main_unbound globs w (or_intror Hdp)). discriminate.
  - rewrite (main_unbound globs w (or_introl Hsp)). discriminate.
Qed.

(** X12: what [main] leaves behind, by the way it ends.  A run that ends
    in [SystemExit], and any run on a file that cannot be opened, leaves
    the world as it was.  A run that returns had both datasets bound and
    a document without surrogates; it leaves the preamble followed by the
    rendering of the Singles and then the Doubles dataset, and prints one
    line.  A run that ends in [UnicodeEncodeError] had a document with a
    surrogate; it leaves the file cut down to the preamble alone and
    prints nothing. *)
Theorem main_effects (globs : globals) (w : world) :
  (forall msg, fst (main globs w) = SystemExit msg -> snd (main globs w) = w)
  /\ (writable w = false -> snd (main globs w) = w)
  /\ (fst (main globs w) = Returned ->
      exists sp dp md,
        dict_lookup "dan_courses_sp" globs = Some sp
        /\ dict_lookup "dan_courses_dp" globs = Some dp
        /\ render_markdown [("Singles Play", sp); ("Doubles Play", dp)] = Ok md
        /\ encodable md = true
        /\ writable w = true
        /\ snd (main globs w)
           = mkWorld (Some (preamble ++ md)) true
                     (stdout w +++ ["Wrote README.md"]))
  /\ (fst (main globs w) = RaisedUnicodeEncodeError ->
      exists sp dp md,
        dict_lookup "dan_courses_sp" globs = Some sp
        /\ dict_lookup "dan_courses_dp" globs = Some dp
        /\ render_markdown [("Singles Play", sp); ("Doubles Play", dp)] = Ok md
        /\ encodable md = false
        /\ snd (main globs w) = mkWorld (Some preamble) true (stdout w)).
Proof.
  destruct (dict_mem "dan_courses_sp" globs) eqn:Hsp;
    [destruct (dict_mem "dan_courses_dp" globs) eqn:Hdp|].
  - destruct (main_bound globs w Hsp Hdp) as (sp & dp & md & Es & Ed & Hmd & ->).
    destruct (writable w), (encodable md) eqn:He; cbn [fst snd].
    + split; [intros msg; discriminate|]. split; [discriminate|].
      split; [intros _|discriminate]. exists sp, dp, md. auto 7.
    + split; [intros msg; discriminate|]. split; [discriminate|].
      split; [discriminate|intros _]. exists sp, dp, md. auto 7.
    + split; [intros msg; discriminate|]. split; [reflexivity|].
      split; discriminate.
    + split; [intros msg; discriminate|]. split; [reflexivity|].
      split; discriminate.
  - rewrite (main_unbound globs w (or_intror Hdp)). cbn [fst snd].
    split; [reflexivity|]. split; [reflexivity|]. split; discriminate.
  - rewrite (main_unbound globs w (or_introl Hsp)). cbn [fst snd].
    split; [reflexivity|]. split; [reflexivity|]. split; discriminate.
Qed.


(** ** Running the file as a script: outcomes and effects *)

Lemma load_module_cases (courses : option namespace) :
  (courses = None /\ load_module courses = inl ModuleNotFoundError)
  \/ (exists m, courses = Some m
                /\ dict_lookup "dan_courses_sp" m = None
                /\ load_module courses = inl (ImportError "dan_courses_sp"))
  \/ (exists m sp, courses = Some m
                   /\ dict_lookup "dan_courses_sp" m = Some sp
                   /\ dict_lookup "dan_courses_dp" m = None
                   /\ load_module courses = inl (ImportError "dan_courses_dp"))
  \/ (exists m sp dp, courses = Some m
                      /\ dict_lookup "dan_courses_sp" m = Some sp
                      /\ dict_lookup "dan_courses_dp" m = Some dp
                      /\ load_module courses
                         = inr [("dan_courses_sp", sp); ("dan_courses_dp", dp)]).
Proof.
  destruct courses as [m|]; [|left; auto].
  right. unfold load_module, required. cbn [import_names].
  destruct (dict_lookup "dan_courses_sp" m) as [sp|] eqn:Es; [|left; eauto].
  right.
  destruct (dict_lookup "dan_courses_dp" m) as [dp|] eqn:Ed.
  - right. exists m, sp, dp. auto.
  - left. exists m, sp. auto.
Qed.

(** X14: when a run of the script returns, the [courses] module defined
    both datasets, the output file holds the preamble followed by the
    rendering of the module's Singles dataset and then its Doubles
    dataset, and one line was printed; other names of the module play no
    part. *)
Theorem run_script_writes_rendering (courses : option namespace) (w : world) :
  fst (run_script courses w) = Ran Returned ->
  exists m sp dp md,
    courses = Some m
    /\ dict_lookup "dan_courses_sp" m = Some sp
    /\ dict_lookup "dan_courses_dp" m = Some dp
    /\ render_markdown [("Singles Play", sp); ("Doubles Play", dp)] = Ok md
    /\ encodable md = true
    /\ writable w = true
    /\ snd (run_script courses w)
       = mkWorld (Some (preamble ++ md)) true
                 (stdout w +++ ["Wrote README.md"]).
Proof.
  unfold run_script.
  destruct (load_module_cases courses)
    as [[-> E]|[(m & -> & Es & E)|[(m & sp & -> & Es & Ed & E)
                                  |(m & sp & dp & -> & Es & Ed & E)]]];
    rewrite E; cbn [fst snd]; try discriminate.
  destruct (main_bound [("dan_courses_sp", sp); ("dan_courses_dp", dp)] w
                       eq_refl eq_refl)
    as (sp' & dp' & md & Es' & Ed' & Hmd & ->).
  injection Es' as <-. injection Ed' as <-.
  destruct (writable w), (encodable md) eqn:He; cbn [fst snd];
    try discriminate.
  intros _. exists m, sp, dp, md. auto 8.
Qed.

(** X15: when the import of line 18 fails, nothing is written and nothing
    is printed.  It fails with [ModuleNotFoundError] when there is no
    module [courses], and with [ImportError] on the first of the two names
    that a module lacks; these are the only ways it fails for a module
    whose body has run. *)
Theorem run_script_outcomes (courses : option namespace) (w : world) :
  (forall e,
      fst (run_script courses w) = LoadFailed e ->
      snd (run_script courses w) = w
      /\ ((courses = None /\ e = ModuleNotFoundError)
          \/ (exists m, courses = Some m
                        /\ e = ImportError "dan_courses_sp"
                        /\ dict_mem "dan_courses_sp" m = false)
          \/ (exists m, courses = Some m
                        /\ e = ImportError "dan_courses_dp"
                        /\ dict_mem "dan_courses_sp" m = true
                        /\ dict_mem "dan_courses_dp" m = false)))
  /\ (courses = None ->
      run_script courses w = (LoadFailed ModuleNotFoundError, w))
  /\ (forall m, courses = Some m ->
                dict_mem "dan_courses_sp" m = false ->
                run_script courses w
                = (LoadFailed (ImportError "dan_courses_sp"), w))
  /\ (forall m, courses = Some m ->
                dict_mem "dan_courses_sp" m = true ->
                dict_mem "dan_courses_dp" m = false ->
                run_script courses w
                = (LoadFailed (ImportError "dan_courses_dp"), w)).
Proof.
  unfold run_script.
  destruct (load_module_cases courses)
    as [[-> E]|[(m & -> & Es & E)|[(m & sp & -> & Es & Ed & E)
                                  |(m & sp & dp & -> & Es & Ed & E)]]];
    rewrite E; cbn [fst snd].
  - split; [intros e [= <-]; split; [reflexivity|left; auto]|].
    split; [reflexivity|]. split; intros m H; discriminate H.
  - split; [intros e [= <-]; split; [reflexivity|]|].
    { right. left. exists m. unfold dict_mem. rewrite Es. auto. }
    split; [discriminate|]. split; [reflexivity|].
    intros m' [= <-] H. unfold dict_mem in H. rewrite Es in H. discriminate.
  - split; [intros e [= <-]; split; [reflexivity|]|].
    { right. right. exists m. unfold dict_mem. rewrite Es, Ed. auto. }
    split; [discriminate|]. split; [|reflexivity].
    intros m' [= <-] H. unfold dict_mem in H. rewrite Es in H. discriminate.
  - split; [discriminate|]. split; [discriminate|]. split.
    + intros m' [= <-] H. unfold dict_mem in H. rewrite Es in H. discriminate.
    + intros m' [= <-] _ H. unfold dict_mem in H. rewrite Ed in H. discriminate.
Qed.

(** ** Line feeds in a table *)

Lemma list_sum_cons (a : nat) (l : list nat) :
  list_sum (a :: l) = (a + list_sum l)%nat.
Proof. reflexivity. Qed.

Lemma list_sum_nil : list_sum [] = 0%nat.
Proof. reflexivity. Qed.

Lemma count_nl_app (a b : string) :
  count_nl (a ++ b) = (count_nl a + count_nl b)%nat.
Proof.
  induction a as [|c a IH]; [reflexivity|].
  change (String c a ++ b) with (String c (a ++ b)).
  cbn [count_nl]. rewrite IH. lia.
Qed.

Lemma count_nl_join (s : string) (l : list string) :
  count_nl (join s l)
  = (count_nl_all l + (List.length l - 1) * count_nl s)%nat.
Proof.
  unfold join, count_nl_all. induction l as [|x l IH]; [reflexivity|].
  destruct l as [|y l].
  - cbn [String.concat map List.length Nat.sub Nat.mul].
    rewrite list_sum_cons, list_sum_nil. lia.
  - change (String.concat s (x :: y :: l))
      with (x ++ s ++ String.concat s (y :: l)).
    rewrite !count_nl_app, IH.
    cbn [map List.length Nat.sub Nat.mul].
    rewrite !list_sum_cons. lia.
Qed.

Lemma count_nl_escape_cell (s : string) : count_nl (escape_cell s) = count_nl s.
Proof.
  induction s as [|c s IH]; [reflexivity|].
  rewrite escape_cell_cons.
  destruct (Ascii.eqb c pipe) eqn:E; cbn [count_nl]; rewrite IH.
  - apply Ascii.eqb_eq in E. subst c. reflexivity.
  - reflexivity.
Qed.

Lemma count_nl_table_line (cells : list string) :
  count_nl (table_line cells) = count_nl_all cells.
Proof.
  unfold table_line. rewrite !count_nl_app, count_nl_join.
  change (count_nl "| ") with 0%nat. change (count_nl " | ") with 0%nat.
  change (count_nl " |") with 0%nat. lia.
Qed.

Lemma count_nl_all_escape (cells : list string) :
  count_nl_all (map escape_cell cells) = count_nl_all cells.
Proof.
  unfold count_nl_all. rewrite map_map. f_equal.
  apply map_ext. apply count_nl_escape_cell.
Qed.

Lemma count_nl_uint (d : Decimal.uint) : count_nl (NilEmpty.string_of_uint d) = 0%nat.
Proof. induction d; simpl; auto. Qed.

Lemma count_nl_str (i : Z) : count_nl (str i) = 0%nat.
Proof.
  unfold str, NilZero.string_of_int, NilZero.string_of_uint.
  destruct (Z.to_int i) as [d|d]; destruct d; simpl;
    try reflexivity; apply count_nl_uint.
Qed.

Lemma count_nl_all_zero (l : list string) :
  Forall (fun c => count_nl c = 0%nat) l -> count_nl_all l = 0%nat.
Proof.
  unfold count_nl_all. induction 1 as [|c l Hc _ IH]; simpl; [reflexivity|].
  rewrite Hc, IH. reflexivity.
Qed.

Lemma count_nl_header (cols : Z) : count_nl_all (header cols) = 0%nat.
Proof.
  apply count_nl_all_zero. unfold header. apply Forall_app. split.
  - repeat constructor.
  - apply Forall_map, Forall_forall. intros i _.
    rewrite count_nl_app, count_nl_str. reflexivity.
Qed.

Lemma count_nl_sep (cols : Z) : count_nl_all (sep cols) = 0%nat.
Proof.
  apply count_nl_all_zero. unfold sep. rewrite list_mul_single.
  apply Forall_forall. intros c Hc. apply repeat_spec in Hc. now subst.
Qed.

Lemma count_nl_row (cols : Z) (game : string) (stages : list string) :
  count_nl_all (row cols game stages)
  = (count_nl game + count_nl_all stages)%nat.
Proof.
  unfold row, count_nl_all. rewrite list_mul_single, !map_app, !list_sum_app.
  cbn [map]. rewrite list_sum_cons, list_sum_nil.
  assert (E : list_sum (map count_nl (repeat "" (Z.to_nat (cols - len stages))))
              = 0%nat).
  { induction (Z.to_nat (cols - len stages)) as [|n IH]; simpl; auto. }
  rewrite E. lia.
Qed.

Lemma list_sum_In (x : nat) (l : list nat) : In x l -> (x <= list_sum l)%nat.
Proof.
  induction l as [|y l IH]; simpl; [tauto|].
  intros [->|H]; [lia|]. specialize (IH H). lia.
Qed.

Lemma render_table_for_dan_count_nl (dan_name : string) (section : game_section) :
  section <> [] ->
  exists text rows,
    render_table_for_dan dan_name section = Ok text
    /\ Forall2 (fun game r =>
                  exists stages, dict_lookup game section = Some stages
                                 /\ r = row (max_stage_len section) game stages)
               (order_games (dict_keys section)) rows
    /\ count_nl text
       = (count_nl dan_name + list_sum (map count_nl_all rows)
          + List.length section + 4)%nat.
Proof.
  intros Hne.
  destruct (render_table_for_dan_lines dan_name section Hne) as (rows & E & HF).
  eexists. exists rows. split; [exact E|]. split; [exact HF|].
  rewrite count_nl_join. unfold count_nl_all at 1.
  rewrite !map_app, !list_sum_app, !length_app, !length_map.
  cbn [map List.length]. rewrite !list_sum_cons, !list_sum_nil.
  rewrite !count_nl_app, !count_nl_table_line, count_nl_header, count_nl_sep.
  rewrite map_map.
  rewrite (map_ext (fun r => count_nl (table_line (map escape_cell r))) count_nl_all)
    by (intros r; now rewrite count_nl_table_line, count_nl_all_escape).
  assert (Hlen : List.length rows = List.length section).
  { rewrite <- (Forall2_length HF), order_games_length.
    unfold dict_keys. apply length_map. }
  rewrite Hlen.
  change (count_nl "### ") with 0%nat. change (count_nl nl) with 1%nat.
  change (count_nl "") with 0%nat. lia.
Qed.

(** X16: line feeds of names and titles are written as they are.  When
    the rank name, the game names and the stage titles hold no line feed,
    the text of a table has one line feed per game plus four: every row
    is one line.  When a game name or a stage title of the section holds
    a line feed, the text has more line feeds than that. *)
Theorem render_table_for_dan_line_feeds (dan_name : string) (section : game_section) :
  section <> [] ->
  exists text,
    render_table_for_dan dan_name section = Ok text
    /\ (count_nl dan_name = 0%nat ->
        Forall (fun e => count_nl (fst e) = 0%nat
                         /\ count_nl_all (snd e) = 0%nat) section ->
        count_nl text = (List.length section + 4)%nat)
    /\ (dict_wf section ->
        forall game stages,
          In (game, stages) section ->
          (0 < count_nl game + count_nl_all stages)%nat ->
          (List.length section + 4 < count_nl text)%nat).
Proof.
  intros Hne.
  destruct (render_table_for_dan_count_nl dan_name section Hne)
    as (text & rows & E & HF & Hc).
  exists text. split; [exact E|]. split.
  - intros Hd Hall. rewrite Hc, Hd.
    assert (Hz : list_sum (map count_nl_all rows) = 0%nat).
    { assert (Hr : Forall (fun r => count_nl_all r = 0%nat) rows).
      { eapply Forall2_Forall_r; [exact HF|].
        intros game r (stages & Hs & ->). rewrite count_nl_row.
        apply dict_lookup_In in Hs. rewrite Forall_forall in Hall.
        destruct (Hall _ Hs) as [H1 H2]. simpl in H1, H2. lia. }
      clear -Hr. induction Hr as [|r rows Hr0 _ IH]; simpl; [reflexivity|].
      rewrite Hr0, IH. reflexivity. }
    rewrite Hz. lia.
  - intros Hwf game stages Hin Hpos.
    assert (Hg : In game (order_games (dict_keys section))).
    { apply order_games_In. apply (in_map fst) in Hin. exact Hin. }
    destruct (Forall2_In_l _ _ _ _ HF Hg) as (r & Hr & stages' & Hs & ->).
    rewrite (dict_lookup_wf _ _ _ Hwf Hin) in Hs. injection Hs as <-.
    assert (Hle : (count_nl_all (row (max_stage_len section) game stages)
                   <= list_sum (map count_nl_all rows))%nat).
    { apply list_sum_In. apply in_map. exact Hr. }
    rewrite count_nl_row in Hle. rewrite Hc. lia.
Qed.

(** ** Header labels *)

Lemma nth_error_range (lo hi : Z) (k : nat) :
  (Z.of_nat k < hi - lo) -> nth_error (range lo hi) k = Some (lo + Z.of_nat k).
Proof.
  intros H. unfold range.
  rewrite nth_error_map, nth_error_seq.
  destruct (Nat.ltb_spec k (Z.to_nat (hi - lo))); [reflexivity|lia].
Qed.

(** X17: the header starts with [Game], and its cell number [k], for [k]
    from 1 to [cols], is [Stage k]: the stage columns are numbered from
    one, and there is no cell after [Stage cols]. *)
Theorem header_labels (cols : Z) :
  nth_error (header cols) 0 = Some "Game"
  /\ (forall k, 1 <= k <= cols ->
                nth_error (header cols) (Z.to_nat k) = Some ("Stage " ++ str k))
  /\ (0 <= cols -> nth_error (header cols) (Z.to_nat (cols + 1)) = None).
Proof.
  split; [reflexivity|]. split.
  - intros k Hk. unfold header.
    replace (Z.to_nat k) with (S (Z.to_nat (k - 1))) by lia.
    cbn [app nth_error]. rewrite nth_error_map, nth_error_range by lia.
    cbn [option_map].
    replace (1 + Z.of_nat (Z.to_nat (k - 1))) with k by lia. reflexivity.
  - intros H. apply nth_error_None.
    pose proof (len_header cols H) as L. unfold len in L. lia.
Qed.

(** ** The further properties at concrete inputs *)

Lemma first_dan_example_wf : dict_wf first_dan_example.
Proof. unfold dict_wf. nodup_strings. Qed.

Lemma mixed_ranks_wf : dict_wf mixed_ranks.
Proof. unfold dict_wf. nodup_strings. Qed.

Lemma order_games_ignores_input_order_witness :
  Permutation ["zeta"; "8th style"; "7th style"] ["8th style"; "zeta"; "7th style"]
  /\ order_games ["zeta"; "8th style"; "7th style"]
     = order_games ["8th style"; "zeta"; "7th style"].
Proof.
  assert (P : Permutation ["zeta"; "8th style"; "7th style"]
                          ["8th style"; "zeta"; "7th style"])
    by apply perm_swap.
  split; [exact P|].
  apply (order_games_ignores_input_order _ _ P).
Defined.

Lemma order_games_idempotent_witness :
  order_games ["7th style"; "30 RESIDENT"; "alpha"]
  = ["7th style"; "30 RESIDENT"; "alpha"]
  /\ StronglySorted (key_le tuple_ltb (game_key (index_of GAME_ORDER)))
                    ["7th style"; "30 RESIDENT"; "alpha"].
Proof.
  split; [reflexivity|].
  apply (proj1 (proj2 (order_games_idempotent
                         ["7th style"; "30 RESIDENT"; "alpha"]))).
  reflexivity.
Defined.

Lemma order_games_table_then_sorted_witness :
  NoDup ["zeta"; "30 RESIDENT"; "alpha"; "8th style"]
  /\ order_games ["zeta"; "30 RESIDENT"; "alpha"; "8th style"]
     = filter (fun g => list_mem g ["zeta"; "30 RESIDENT"; "alpha"; "8th style"])
              GAME_ORDER
       +++ sorted_str (filter (fun g => negb (list_mem g GAME_ORDER))
                              ["zeta"; "30 RESIDENT"; "alpha"; "8th style"]).
Proof.
  assert (H : NoDup ["zeta"; "30 RESIDENT"; "alpha"; "8th style"])
    by nodup_strings.
  split; [exact H|].
  apply (order_games_table_then_sorted _ H).
Defined.

Lemma index_of_gives_positions_witness :
  NoDup DAN_ORDER
  /\ dict_lookup "Kaiden" (index_of DAN_ORDER) = Some (Z.of_nat 11)
  /\ (In "20 tricoro" GAME_ORDER
      <-> fst (game_key (index_of GAME_ORDER) "20 tricoro") < 27).
Proof.
  split; [exact DAN_ORDER_NoDup|]. split.
  - apply (proj1 (proj1 index_of_gives_positions DAN_ORDER DAN_ORDER_NoDup)).
    reflexivity.
  - apply (proj1 (proj2 index_of_gives_positions)).
Defined.

Lemma max_stage_len_of_union_witness :
  Permutation first_dan_example first_dan_swapped
  /\ max_stage_len first_dan_example = max_stage_len first_dan_swapped.
Proof.
  assert (P : Permutation first_dan_example first_dan_swapped)
    by apply perm_swap.
  split; [exact P|].
  apply (proj2 (proj2 max_stage_len_of_union) _ _ P).
Defined.

Lemma render_table_for_dan_ignores_insertion_order_witness :
  dict_wf first_dan_example
  /\ Permutation first_dan_example first_dan_swapped
  /\ render_table_for_dan "1st Dan" first_dan_example
     = render_table_for_dan "1st Dan" first_dan_swapped.
Proof.
  assert (P : Permutation first_dan_example first_dan_swapped)
    by apply perm_swap.
  split; [exact first_dan_example_wf|]. split; [exact P|].
  apply (render_table_for_dan_ignores_insertion_order
           "1st Dan" _ _ first_dan_example_wf P).
Defined.

Lemma render_table_for_dan_shape_witness :
  pipe_example <> []
  /\ exists text,
      render_table_for_dan "Kaiden" pipe_example = Ok text
      /\ (exists rest,
             text = "### " ++ "Kaiden" ++ nl ++ nl ++ "| Game" ++ rest)
      /\ (exists pre, text = pre ++ " |" ++ nl).
Proof.
  split; [discriminate|].
  destruct (render_table_for_dan_shape "Kaiden" pipe_example)
    as (text & E & _ & H).
  exists text. split; [exact E|]. apply H. discriminate.
Defined.

Lemma escape_cell_facts_witness :
  count_pipes "SONIC BOOM" = 0%nat
  /\ escape_cell "SONIC BOOM" = "SONIC BOOM".
Proof.
  split; [reflexivity|].
  apply (proj1 (proj2 (proj2 (proj2 escape_cell_facts)))). reflexivity.
Defined.

Lemma table_line_tells_the_row_witness :
  table_line (map escape_cell ["a | b"; "c\"])
  = table_line (map escape_cell ["a | b"; "c\"])
  /\ ["a | b"; "c\"] = ["a | b"; "c\"].
Proof.
  split; [reflexivity|].
  apply (table_line_tells_the_row ["a | b"; "c\"] ["a | b"; "c\"]);
    [discriminate|discriminate|reflexivity].
Defined.

Lemma render_markdown_ignores_insertion_order_witness :
  Forall2 same_ranks [("Singles Play", mixed_ranks)]
                     [("Singles Play", mixed_ranks_reordered)]
  /\ render_markdown [("Singles Play", mixed_ranks)]
     = render_markdown [("Singles Play", mixed_ranks_reordered)].
Proof.
  assert (H : Forall2 same_ranks [("Singles Play", mixed_ranks)]
                      [("Singles Play", mixed_ranks_reordered)]).
  { constructor; [|constructor].
    split; [reflexivity|]. split; [exact mixed_ranks_wf|].
    apply (Permutation_rev mixed_ranks). }
  split; [exact H|].
  apply (render_markdown_ignores_insertion_order _ _ H).
Defined.

Lemma main_effects_witness :
  fst (main surrogate_globals fresh_world) = RaisedUnicodeEncodeError
  /\ exists sp dp md,
      dict_lookup "dan_courses_sp" surrogate_globals = Some sp
      /\ dict_lookup "dan_courses_dp" surrogate_globals = Some dp
      /\ render_markdown [("Singles Play", sp); ("Doubles Play", dp)] = Ok md
      /\ encodable md = false
      /\ snd (main surrogate_globals fresh_world)
         = mkWorld (Some preamble) true (stdout fresh_world).
Proof.
  assert (H : fst (main surrogate_globals fresh_world) = RaisedUnicodeEncodeError)
    by reflexivity.
  split; [exact H|].
  apply (proj2 (proj2 (proj2 (main_effects surrogate_globals fresh_world))) H).
Defined.


Lemma run_script_writes_rendering_witness :
  fst (run_script (Some both_globals) fresh_world) = Ran Returned
  /\ exists m sp dp md,
      Some both_globals = Some m
      /\ dict_lookup "dan_courses_sp" m = Some sp
      /\ dict_lookup "dan_courses_dp" m = Some dp
      /\ render_markdown [("Singles Play", sp); ("Doubles Play", dp)] = Ok md
      /\ encodable md = true
      /\ writable fresh_world = true
      /\ snd (run_script (Some both_globals) fresh_world)
         = mkWorld (Some (preamble ++ md)) true
                   (stdout fresh_world +++ ["Wrote README.md"]).
Proof.
  assert (H : fst (run_script (Some both_globals) fresh_world) = Ran Returned)
    by reflexivity.
  split; [exact H|].
  apply (run_script_writes_rendering (Some both_globals) fresh_world H).
Defined.

Lemma run_script_outcomes_witness :
  dict_mem "dan_courses_sp" doubles_only_globals = false
  /\ run_script (Some doubles_only_globals) fresh_world
     = (LoadFailed (ImportError "dan_courses_sp"), fresh_world).
Proof.
  split; [reflexivity|].
  apply (proj1 (proj2 (proj2 (run_script_outcomes
                                (Some doubles_only_globals) fresh_world)))
               doubles_only_globals eq_refl).
  reflexivity.
Defined.

Lemma render_table_for_dan_line_feeds_witness :
  line_feed_example <> []
  /\ dict_wf line_feed_example
  /\ exists text,
      render_table_for_dan "1st Dan" line_feed_example = Ok text
      /\ (List.length line_feed_example + 4 < count_nl text)%nat.
Proof.
  assert (Hwf : dict_wf line_feed_example) by (unfold dict_wf; nodup_strings).
  split; [discriminate|]. split; [exact Hwf|].
  destruct (render_table_for_dan_line_feeds "1st Dan" line_feed_example)
    as (text & E & _ & H); [discriminate|].
  exists text. split; [exact E|].
  apply (H Hwf "7th style" ["SONIC BOOM"; "one" ++ nl ++ "two"]).
  - now left.
  - vm_compute. lia.
Defined.

Lemma header_labels_witness :
  1 <= 2 <= 2 /\ nth_error (header 2) (Z.to_nat 2) = Some ("Stage " ++ str 2).
Proof.
  split; [lia|]. apply (proj1 (proj2 (header_labels 2)) 2). lia.
Defined.
